(** * steps-xamarin-ios-test: the step's orchestration logic (main.go)

    A shallow embedding of [main.go]: the string helpers it calls, the
    simulator selection ([getLatestIOSVersion], [getSimulatorInfo]), the
    result-log scan ([parseErrorFromResultLog]) and the control flow of
    [main] as a program over an explicit world (process environment and
    the trace of observable actions). *)

From Stdlib Require Import ZArith String Ascii DecimalString List Lia Bool.
From stdpp Require Import gmap strings list.

Local Open Scope string_scope.
Local Open Scope list_scope.
Local Open Scope Z_scope.
Local Open Scope stdpp_scope.

(** ** Go values

    A Go [string] is a sequence of bytes: [string] (a list of [ascii]).
    A Go [error] is used by this program only through its message. *)

Definition error := string.

(** The error result of a Go function is an [option error]: [None] is
    [nil]. *)

(** Result of a collaborator that returns either a value or an error. *)
Inductive result (A : Type) : Type :=
| Ok (a : A)
| Err (e : error).
Arguments Ok {A} a.
Arguments Err {A} e.

(** ** The [strings] package *)

Module strings.

(** [strings.HasPrefix]. *)
Fixpoint HasPrefix (s prefix : string) : bool :=
  match prefix, s with
  | EmptyString, _ => true
  | String _ _, EmptyString => false
  | String p prefix', String c s' =>
      if Ascii.eqb c p then HasPrefix s' prefix' else false
  end.

(** [s[n:]]. *)
Fixpoint drop_bytes (n : nat) (s : string) : string :=
  match n, s with
  | O, _ => s
  | S _, EmptyString => EmptyString
  | S n', String _ s' => drop_bytes n' s'
  end.

(** [strings.TrimPrefix]. *)
Definition TrimPrefix (s prefix : string) : string :=
  if HasPrefix s prefix then drop_bytes (String.length prefix) s else s.

(** The six ASCII members of [unicode.IsSpace]:
    tab, line feed, vertical tab, form feed, carriage return, space. *)
Definition asciiSpace (c : ascii) : bool :=
  match nat_of_ascii c with
  | 9%nat | 10%nat | 11%nat | 12%nat | 13%nat | 32%nat => true
  | _ => false
  end.

(** The UTF-8 encodings of the other members of [unicode.IsSpace]:
    U+0085, U+00A0, U+1680, U+2000..U+200A, U+2028, U+2029, U+202F,
    U+205F, U+3000.  A rune decoded at the start (or the end) of a
    string is one of them exactly when the string starts (ends) with
    one of these byte sequences. *)
Definition wideSpace2 (b0 b1 : ascii) : bool :=
  match nat_of_ascii b0, nat_of_ascii b1 with
  | 194%nat, 133%nat | 194%nat, 160%nat => true
  | _, _ => false
  end.

Definition wideSpace3 (b0 b1 b2 : ascii) : bool :=
  match nat_of_ascii b0, nat_of_ascii b1 with
  | 225%nat, 154%nat => Nat.eqb (nat_of_ascii b2) 128
  | 226%nat, 128%nat =>
      let x := nat_of_ascii b2 in
      (Nat.leb 128 x && Nat.leb x 138) || Nat.eqb x 168 || Nat.eqb x 169
      || Nat.eqb x 175
  | 226%nat, 129%nat => Nat.eqb (nat_of_ascii b2) 159
  | 227%nat, 128%nat => Nat.eqb (nat_of_ascii b2) 128
  | _, _ => false
  end.

(** [strings.TrimLeftFunc(s, unicode.IsSpace)] on the bytes of [s]. *)
Fixpoint trimLeft (s : list ascii) : list ascii :=
  match s with
  | [] => []
  | b0 :: s1 =>
      if asciiSpace b0 then trimLeft s1
      else match s1 with
           | b1 :: s2 =>
               if wideSpace2 b0 b1 then trimLeft s2
               else match s2 with
                    | b2 :: s3 =>
                        if wideSpace3 b0 b1 b2 then trimLeft s3 else s
                    | [] => s
                    end
           | [] => s
           end
  end.

(** [strings.TrimRightFunc(s, unicode.IsSpace)] on the bytes of [s],
    given last byte first. *)
Fixpoint trimRight_rev (r : list ascii) : list ascii :=
  match r with
  | [] => []
  | b0 :: r1 =>
      if asciiSpace b0 then trimRight_rev r1
      else match r1 with
           | b1 :: r2 =>
               if wideSpace2 b1 b0 then trimRight_rev r2
               else match r2 with
                    | b2 :: r3 =>
                        if wideSpace3 b2 b1 b0 then trimRight_rev r3 else r
                    | [] => r
                    end
           | [] => r
           end
  end.

(** [strings.TrimSpace]: leading, then trailing white space removed. *)
Definition TrimSpace (s : string) : string :=
  string_of_list_ascii
    (reverse (trimRight_rev (reverse (trimLeft (list_ascii_of_string s))))).

(** Pieces of [s] between occurrences of the byte [sep]
    ([strings.Split] with a one-byte separator); never empty. *)
Fixpoint split_byte (sep : ascii) (s : string) : list string :=
  match s with
  | EmptyString => [EmptyString]
  | String c s' =>
      match split_byte sep s' with
      | piece :: pieces =>
          if Ascii.eqb c sep then EmptyString :: piece :: pieces
          else String c piece :: pieces
      | [] => [String c EmptyString]
      end
  end.

(** [strings.Join]. *)
Fixpoint Join (elems : list string) (sep : string) : string :=
  match elems with
  | [] => EmptyString
  | [e] => e
  | e :: rest => e +:+ sep +:+ Join rest sep
  end.

End strings.

(** [%d] of [fmt] and [strconv.FormatInt(_, 10)]. *)
Definition itoa (n : Z) : string := NilZero.string_of_int (Z.to_int n).


(** [%q] of a string free of characters that need escaping. *)
Definition quoted (s : string) : string :=
  String (ascii_of_nat 34) (s +:+ String (ascii_of_nat 34) EmptyString).

(** ** The version library

    [main.go] uses three operations of its version library: the parser
    [version.NewVersion], the comparison [GreaterThan] and the accessor
    [Segments] (and [String] in one error message).  The selection code is
    written over this interface. *)

Class VersionLib := {
  Version : Type;
  NewVersion : string -> result Version;
  GreaterThan : Version -> Version -> bool;
  Segments : Version -> list Z;
  VersionString : Version -> string
}.

(** Modelled from the spec: the version library
    (github.com/hashicorp/go-version) is not among the sources.  The spec
    has the suffix of a bucket key parsed "as a dotted version number" and
    compared by "standard multi-component numeric comparison (not
    lexicographic string comparison)".  A dotted version is one or more
    non-empty runs of decimal digits separated by single dots; each run is
    read as a signed 64-bit integer; as in that library, a version with
    fewer than three components is completed with zeros, and two versions
    of different lengths are compared as if the shorter were completed with
    zeros. *)
Module Dotted.

Definition is_digit (c : ascii) : bool :=
  (Nat.leb 48 (nat_of_ascii c) && Nat.leb (nat_of_ascii c) 57)%nat.

Fixpoint all_digits (s : string) : bool :=
  match s with
  | EmptyString => true
  | String c s' => is_digit c && all_digits s'
  end.

Definition is_number (s : string) : bool :=
  negb (String.eqb s EmptyString) && all_digits s.

Fixpoint digits_value (acc : Z) (s : string) : Z :=
  match s with
  | EmptyString => acc
  | String c s' => digits_value (10 * acc + (Z.of_nat (nat_of_ascii c) - 48)) s'
  end.

Definition maxInt64 : Z := 2 ^ 63 - 1.

(** [strconv.ParseInt(str, 10, 64)] on a run of digits. *)
Definition ParseInt (str : string) : result Z :=
  let v := digits_value 0 str in
  if v <=? maxInt64 then Ok v
  else Err ("strconv.ParseInt: parsing " +:+ quoted str +:+ ": value out of range").

Fixpoint parse_segments (segmentsStr : list string) : result (list Z) :=
  match segmentsStr with
  | [] => Ok []
  | str :: rest =>
      match ParseInt str with
      | Err e => Err ("Error parsing version: " +:+ e)
      | Ok val =>
          match parse_segments rest with
          | Err e => Err e
          | Ok vals => Ok (val :: vals)
          end
      end
  end.

Definition pad3 (segments : list Z) : list Z :=
  segments ++ repeat 0 (3 - length segments)%nat.

Record t := { segments : list Z; original : string }.

Definition NewVersion (v : string) : result t :=
  let segmentsStr := strings.split_byte "." v in
  if forallb is_number segmentsStr then
    match parse_segments segmentsStr with
    | Err e => Err e
    | Ok segs => Ok {| segments := pad3 segs; original := v |}
    end
  else Err ("Malformed version: " +:+ v).

Definition allZero (segs : list Z) : bool := forallb (Z.eqb 0) segs.

(** Component by component, most significant first. *)
Fixpoint compare_segments (self other : list Z) : comparison :=
  match self, other with
  | [], [] => Eq
  | [], _ :: _ => if allZero other then Eq else Lt
  | _ :: _, [] => if allZero self then Eq else Gt
  | lhs :: self', rhs :: other' =>
      match lhs ?= rhs with
      | Eq => compare_segments self' other'
      | c => c
      end
  end.

Definition Compare (v other : t) : comparison :=
  compare_segments (segments v) (segments other).

Definition GreaterThan (v other : t) : bool :=
  match Compare v other with Gt => true | _ => false end.

Definition String (v : t) : string :=
  strings.Join (map itoa (segments v)) ".".

End Dotted.

#[export] Instance dotted_versions : VersionLib := {|
  Version := Dotted.t;
  NewVersion := Dotted.NewVersion;
  GreaterThan := Dotted.GreaterThan;
  Segments := Dotted.segments;
  VersionString := Dotted.String
|}.

(** ** Simulator selection *)

(** Modelled from the spec: the declaration of [simulator.InfoModel] is not
    among the sources; the spec gives a simulator info a device name, an
    opaque identifier and a status string. *)
Record InfoModel := {
  Name : string;
  ID : string;
  Status : string
}.

(** The zero value [simulator.InfoModel{}]. *)
Definition InfoModel_zero : InfoModel :=
  {| Name := EmptyString; ID := EmptyString; Status := EmptyString |}.

(** [simulator.OsVersionSimulatorInfosMap], a Go
    [map[string][]InfoModel]. *)
Abbreviation OsVersionSimulatorInfosMap := (gmap string (list InfoModel)).

Section Selection.

Context {lib : VersionLib}.

(** The body of the [range] loop of [getLatestIOSVersion], over the keys
    in the order in which the loop visits them (which Go leaves
    unspecified).  The result is the loop's final [latestVersionPtr], or
    the error of the [return] inside the loop. *)
Fixpoint latest_loop (keys : list string) (latestVersionPtr : option Version)
  : result (option Version) :=
  match keys with
  | [] => Ok latestVersionPtr
  | osVersion :: keys' =>
      if negb (strings.HasPrefix osVersion "iOS") then
        latest_loop keys' latestVersionPtr
      else
        let versionStr := strings.TrimPrefix osVersion "iOS" in
        let versionStr := strings.TrimSpace versionStr in
        match NewVersion versionStr with
        | Err err =>
            Err ("Failed to parse version (" +:+ versionStr +:+ "), error: " +:+ err)
        | Ok versionPtr =>
            latest_loop keys'
              (match latestVersionPtr with
               | None => Some versionPtr
               | Some latest =>
                   if GreaterThan versionPtr latest then Some versionPtr
                   else latestVersionPtr
               end)
        end
  end.

(** [getLatestIOSVersion]; [keys] are the keys of the map in the order of
    the [range]. *)
Definition getLatestIOSVersion (keys : list string) : string * option error :=
  match latest_loop keys None with
  | Err e => (EmptyString, Some e)
  | Ok None =>
      (EmptyString, Some "Failed to determin latest iOS simulator version")
  | Ok (Some latestVersion) =>
      match Segments latestVersion with
      | major :: minor :: _ =>
          ("iOS " +:+ itoa major +:+ "." +:+ itoa minor, None)
      | _ =>
          (EmptyString,
           Some ("Invalid version created: " +:+ VersionString latestVersion
                 +:+ ", segments count < 2"))
      end
  end.

(** The [for _, info := range infos] loop of [getSimulatorInfo]. *)
Fixpoint find_device (infos : list InfoModel) (deviceName : string)
  : option InfoModel :=
  match infos with
  | [] => None
  | info :: infos' =>
      if String.eqb (Name info) deviceName then Some info
      else find_device infos' deviceName
  end.

(** Lines 136-142: the bucket key to look up. *)
Definition resolve_os_version (keys : list string) (osVersion : string)
  : result string :=
  if String.eqb osVersion "latest" then
    match getLatestIOSVersion keys with
    | (_, Some err) => Err err
    | (latestOSVersion, None) => Ok latestOSVersion
    end
  else Ok osVersion.

(** [getSimulatorInfo].  [simulators] is what
    [simulator.GetOsVersionSimulatorInfosMap()] returned and [keys] the
    order in which a [range] over that map visits its keys. *)
Definition getSimulatorInfo
    (simulators : result OsVersionSimulatorInfosMap) (keys : list string)
    (osVersion deviceName : string) : InfoModel * option error :=
  match simulators with
  | Err err => (InfoModel_zero, Some err)
  | Ok osVersionSimulatorInfosMap =>
      match resolve_os_version keys osVersion with
      | Err err => (InfoModel_zero, Some err)
      | Ok osVersion =>
          match osVersionSimulatorInfosMap !! osVersion with
          | None =>
              (InfoModel_zero,
               Some ("No simulators found for os version: " +:+ osVersion))
          | Some infos =>
              match find_device infos deviceName with
              | Some info => (info, None)
              | None =>
                  (InfoModel_zero,
                   Some ("No simulators found for os version: (" +:+ osVersion
                         +:+ "), device name: (" +:+ deviceName +:+ ")"))
              end
          end
      end
  end.

End Selection.

(** The keys of a Go map, in an order in which a [range] may visit them. *)
Definition range_order {V} (m : gmap string V) (keys : list string) : Prop :=
  keys ≡ₚ (map_to_list m).*1.

(** ** Scanning the result log *)

(** [bufio.Scanner] with its default split function [bufio.ScanLines] and
    its default buffer. *)
Module bufio.

(** [bufio.MaxScanTokenSize]: the scanner's buffer never grows beyond
    this many bytes, and a line is delivered only if it fits the buffer
    before the end of the input is seen. *)
Definition MaxScanTokenSize : Z := 64 * 1024.

(** [dropCR]: one trailing carriage return removed. *)
Fixpoint dropCR (data : string) : string :=
  match data with
  | EmptyString => EmptyString
  | String c EmptyString =>
      if Ascii.eqb c (ascii_of_nat 13) then EmptyString else data
  | String c rest => String c (dropCR rest)
  end.

Definition fits (raw : string) : bool :=
  Z.of_nat (String.length raw) <? MaxScanTokenSize.

(** The tokens delivered by successive calls of [Scan] over the pieces
    of the input between line feeds, until [Scan] returns [false]: at
    the end of the input (a final piece that is empty is no line), or at
    the first piece that does not fit the buffer. *)
Fixpoint tokens (pieces : list string) : list string :=
  match pieces with
  | [] => []
  | [final] =>
      if String.eqb final EmptyString then []
      else if fits final then [dropCR final] else []
  | raw :: rest =>
      if fits raw then dropCR raw :: tokens rest else []
  end.

(** The lines of the input as [ScanLines] cuts them, whatever their
    length. *)
Fixpoint lines_of (pieces : list string) : list string :=
  match pieces with
  | [] => []
  | [final] =>
      if String.eqb final EmptyString then [] else [dropCR final]
  | raw :: rest => dropCR raw :: lines_of rest
  end.

(** What [scanner.Text()] yields over the iterations of
    [for scanner.Scan()] on [bufio.NewScanner(strings.NewReader(content))]. *)
Definition scan (content : string) : list string :=
  tokens (strings.split_byte (ascii_of_nat 10) content).

Definition lines (content : string) : list string :=
  lines_of (strings.split_byte (ascii_of_nat 10) content).

End bufio.

(** The two local variables of [parseErrorFromResultLog]. *)
Record ScanState := {
  failureLineFound : bool;
  lastFailureMessage : string
}.

(** One iteration of the loop of [parseErrorFromResultLog] on the text of
    the current token. *)
Definition scan_step (st : ScanState) (text : string) : ScanState :=
  let line := strings.TrimSpace text in
  if String.eqb line "<failure>" then
    {| failureLineFound := true; lastFailureMessage := lastFailureMessage st |}
  else
    {| failureLineFound := false;
       lastFailureMessage :=
         if failureLineFound st && strings.HasPrefix line "<message>"
         then line else lastFailureMessage st |}.

(** [parseErrorFromResultLog]. *)
Definition parseErrorFromResultLog (content : string) : string * option error :=
  let st := fold_left scan_step (bufio.scan content)
              {| failureLineFound := false; lastFailureMessage := EmptyString |} in
  (lastFailureMessage st, None).

Definition nl : string := String (ascii_of_nat 10) EmptyString.


(** ** The world of [main]

    [main] acts on its process environment and on collaborators: the file
    system, the simulator directory, the builder, the test runner and the
    export channel [envman].  A run is modelled over a world made of the
    process environment and the trace of the actions performed so far; the
    answers of the collaborators are inputs of the model. *)

Inductive Level := LvInfo | LvPrint | LvDone | LvWarn | LvError.

(** Modelled from the spec: the declarations of the builder's constants
    are not among the sources; "one designated type marks an application
    bundle output", and a build command carries the "test-framework
    classification of the project". *)
Module constants.

Inductive OutputType := OutputTypeAPP | OutputTypeOther (name : string).

Inductive TestFramework :=
  TestFrameworkXamarinUITest | TestFrameworkOther (name : string).

#[export] Instance OutputType_eq_dec : EqDecision OutputType.
Proof. solve_decision. Defined.

#[export] Instance TestFramework_eq_dec : EqDecision TestFramework.
Proof. solve_decision. Defined.

End constants.
Export constants.

(** Modelled from the spec: the builder's output types are not among the
    sources; a project output is a list of [(outputType, path)] pairs, a
    test project output an output of its own and the names of the projects
    it references. *)
Record OutputModel := { Pth : string; OutputType : constants.OutputType }.

Record ProjectOutputModel := { Outputs : list OutputModel }.

Record TestProjectOutputModel := {
  ReferredProjectNames : list string;
  Output : OutputModel
}.

Abbreviation ProjectOutputMap := (gmap string ProjectOutputModel).

(** One call of the progress callback handed to the builder. *)
Record BuildCommand := {
  solutionName : string;
  projectName : string;
  sdk : string;
  testFramework : constants.TestFramework;
  commandStr : string;
  alreadyPerformed : bool
}.

(** The state of the [nunit.Model] that [main] configures. *)
Record NunitConsole := {
  nunitConsolePth : string;
  resultLogPth : string;
  dllPth : string;
  testToRun : string
}.

Definition SetResultLogPth (c : NunitConsole) (pth : string) : NunitConsole :=
  {| nunitConsolePth := nunitConsolePth c; resultLogPth := pth;
     dllPth := dllPth c; testToRun := testToRun c |}.

Definition SetDLLPth (c : NunitConsole) (pth : string) : NunitConsole :=
  {| nunitConsolePth := nunitConsolePth c; resultLogPth := resultLogPth c;
     dllPth := pth; testToRun := testToRun c |}.

Definition SetTestToRun (c : NunitConsole) (test : string) : NunitConsole :=
  {| nunitConsolePth := nunitConsolePth c; resultLogPth := resultLogPth c;
     dllPth := dllPth c; testToRun := test |}.

(** The observable actions of a run, each with the answer it received. *)
Inductive Event :=
| EvPrintln
| EvLog (lv : Level) (format : string) (args : list string)
| EvSetenv (key value : string) (err : option error)
| EvBuild (configuration platform : string)
| EvRun (console : NunitConsole) (environ : gmap string string) (err : option error)
| EvReadResult (pth : string) (content : string) (err : option error)
| EvExport (keyStr valueStr : string) (err : option error).

Record World := {
  environ : gmap string string;
  trace : list Event
}.

(** The answers of the collaborators.  An answer that may change while
    the program runs is a function of the world at the time of the call. *)
Record Collaborators := {
  IsPathExists : World -> string -> bool * option error;
  ReadStringFromFile : World -> string -> string * option error;
  filepath_Join : string -> string -> string;
  Setenv_answer : World -> string -> string -> option error;
  envman_add : World -> string -> string -> option error;
  GetOsVersionSimulatorInfosMap : result OsVersionSimulatorInfosMap;
  simulators_range : list string;
  SystemNunit3ConsolePath : string * option error;
  builder_New : option error;
  BuildAllXamarinUITestAndReferredProjects :
    list BuildCommand * list string * option error;
  CollectProjectOutputs : ProjectOutputMap * option error;
  (** the entries of the returned map in the order in which the [range]
      of [main] visits them, the warnings, the error *)
  CollectXamarinUITestProjectOutputs :
    list (string * TestProjectOutputModel) * list string * option error;
  nunit_New : option error;
  PrintableCommand : NunitConsole -> string;
  nunit_Run : World -> NunitConsole -> option error
}.

(** A computation returns, or the process exits ([os.Exit]). *)
Inductive Outcome (A : Type) : Type :=
| Ret (a : A)
| Exit (code : Z).
Arguments Ret {A} a.
Arguments Exit {A} code.

Definition M (A : Type) : Type := World -> Outcome A * World.

#[export] Instance M_ret : MRet M := fun A a w => (Ret a, w).

#[export] Instance M_bind : MBind M := fun A B f m w =>
  match m w with
  | (Ret a, w') => f a w'
  | (Exit code, w') => (Exit code, w')
  end.

Definition emit (e : Event) : M unit := fun w =>
  (Ret tt, {| environ := environ w; trace := trace w ++ [e] |}).

Definition ask {A} (f : World -> A) : M A := fun w => (Ret (f w), w).

Definition os_Exit {A} (code : Z) : M A := fun w => (Exit code, w).

Definition Println : M unit := emit EvPrintln.

Definition logf (lv : Level) (format : string) (args : list string) : M unit :=
  emit (EvLog lv format args).

(** [os.Getenv]. *)
Definition Getenv (key : string) : M string :=
  ask (fun w => default EmptyString (environ w !! key)).

(** ** [main.go] *)

Record ConfigsModel := {
  XamarinSolution : string;
  XamarinConfiguration : string;
  XamarinPlatform : string;
  TestToRun : string;
  SimulatorDevice : string;
  SimulatorOsVersion : string;
  DeployDir : string
}.

Definition RESULT_KEY : string := "BITRISE_XAMARIN_TEST_RESULT".
Definition FULL_RESULTS_KEY : string := "BITRISE_XAMARIN_TEST_FULL_RESULTS_TEXT".

Definition is_empty (s : string) : bool := String.eqb s EmptyString.

Section Program.

Context {lib : VersionLib} (collab : Collaborators).

Definition createConfigsModelFromEnvs : M ConfigsModel :=
  xamarin_project ← Getenv "xamarin_project";
  xamarin_configuration ← Getenv "xamarin_configuration";
  xamarin_platform ← Getenv "xamarin_platform";
  test_to_run ← Getenv "test_to_run";
  simulator_device ← Getenv "simulator_device";
  simulator_os_version ← Getenv "simulator_os_version";
  deploy_dir ← Getenv "BITRISE_DEPLOY_DIR";
  mret {| XamarinSolution := xamarin_project;
          XamarinConfiguration := xamarin_configuration;
          XamarinPlatform := xamarin_platform;
          TestToRun := test_to_run;
          SimulatorDevice := simulator_device;
          SimulatorOsVersion := simulator_os_version;
          DeployDir := deploy_dir |}.

Definition print (configs : ConfigsModel) : M unit :=
  logf LvInfo "Build Configs:" [];;
  logf LvPrint "- XamarinSolution: %s" [XamarinSolution configs];;
  logf LvPrint "- XamarinConfiguration: %s" [XamarinConfiguration configs];;
  logf LvPrint "- XamarinPlatform: %s" [XamarinPlatform configs];;
  logf LvInfo "Xamarin UITest Configs:" [];;
  logf LvPrint "- TestToRun: %s" [TestToRun configs];;
  logf LvPrint "- SimulatorDevice: %s" [SimulatorDevice configs];;
  logf LvPrint "- SimulatorOsVersion: %s" [SimulatorOsVersion configs];;
  logf LvInfo "Other Configs:" [];;
  logf LvPrint "- DeployDir: %s" [DeployDir configs].

(** [validate] only inspects the file system: a function of the world. *)
Definition validate (configs : ConfigsModel) (w : World) : option error :=
  if is_empty (XamarinSolution configs) then
    Some "no XamarinSolution parameter specified"
  else
    match IsPathExists collab w (XamarinSolution configs) with
    | (_, Some err) =>
        Some ("failed to check if XamarinSolution exist at: "
              +:+ XamarinSolution configs +:+ ", error: " +:+ err)
    | (false, None) =>
        Some ("XamarinSolution not exist at: " +:+ XamarinSolution configs)
    | (true, None) =>
        if is_empty (XamarinConfiguration configs) then
          Some "no XamarinConfiguration parameter specified"
        else if is_empty (XamarinPlatform configs) then
          Some "no XamarinPlatform parameter specified"
        else if is_empty (SimulatorDevice configs) then
          Some "no SimulatorDevice parameter specified"
        else None
    end.

(** [exportEnvironmentWithEnvman]: one run of
    [envman add --key keyStr] with [valueStr] on its standard input. *)
Definition exportEnvironmentWithEnvman (keyStr valueStr : string)
  : M (option error) :=
  err ← ask (fun w => envman_add collab w keyStr valueStr);
  emit (EvExport keyStr valueStr err);;
  mret err.

(** [os.Setenv]; the variable is set when the call succeeds. *)
Definition Setenv (key value : string) : M (option error) := fun w =>
  let err := Setenv_answer collab w key value in
  (Ret err,
   {| environ := match err with
                 | None => <[key := value]> (environ w)
                 | Some _ => environ w
                 end;
      trace := trace w ++ [EvSetenv key value err] |}).

(** [testResultLogContent] only reads the file system: a function of
    the world. *)
Definition testResultLogContent (pth : string) (w : World)
  : string * option error :=
  match IsPathExists collab w pth with
  | (_, Some err) =>
      (EmptyString,
       Some ("Failed to check if path (" +:+ pth +:+ ") exist, error: " +:+ err))
  | (false, None) =>
      (EmptyString, Some ("test result not exist at: " +:+ pth))
  | (true, None) =>
      match ReadStringFromFile collab w pth with
      | (_, Some err) =>
          (EmptyString,
           Some ("Failed to read file (" +:+ pth +:+ "), error: " +:+ err))
      | (content, None) => (content, None)
      end
  end.

Definition failf {A} (format : string) (v : list string) : M A :=
  logf LvError format v;;
  err ← exportEnvironmentWithEnvman RESULT_KEY "failed";
  match err with
  | Some err =>
      logf LvWarn "Failed to export environment: %s, error: %s" [RESULT_KEY; err]
  | None => mret tt
  end;;
  os_Exit 1.

(** [for _, warning := range warnings { log.Warnf(warning) }]. *)
Fixpoint log_warnings (warnings : list string) : M unit :=
  match warnings with
  | [] => mret tt
  | warning :: rest => logf LvWarn warning [];; log_warnings rest
  end.

(** The progress callback that [main] hands to the builder. *)
Definition callback (c : BuildCommand) : M unit :=
  Println;;
  (if bool_decide (testFramework c = TestFrameworkXamarinUITest)
   then logf LvInfo "Building test project: %s" [projectName c]
   else logf LvInfo "Building project: %s" [projectName c]);;
  logf LvDone "$ %s" [commandStr c];;
  (if alreadyPerformed c
   then logf LvWarn "build command already performed, skipping..." []
   else mret tt);;
  Println.

Fixpoint callbacks (cs : list BuildCommand) : M unit :=
  match cs with
  | [] => mret tt
  | c :: rest => callback c;; callbacks rest
  end.

(** Lines 312-317: the path of the last output of type [OutputTypeAPP],
    starting from [appPth]. *)
Fixpoint find_app_from (appPth : string) (outputs : list OutputModel) : string :=
  match outputs with
  | [] => appPth
  | output :: rest =>
      find_app_from
        (if bool_decide (OutputType output = OutputTypeAPP) then Pth output
         else appPth)
        rest
  end.

Definition find_app (outputs : list OutputModel) : string :=
  find_app_from EmptyString outputs.

(** Lines 357-361 and 372-376. *)
Definition export_full_results (resultLog : string) : M unit :=
  if negb (is_empty resultLog) then
    err ← exportEnvironmentWithEnvman FULL_RESULTS_KEY resultLog;
    match err with
    | Some err =>
        logf LvWarn "Failed to export environment: %s, error: %s"
          [FULL_RESULTS_KEY; err]
    | None => mret tt
    end
  else mret tt.

(** Lines 350-364: the test runner reported [err]. *)
Definition test_failed {A} (resultLog : string) (err : error) : M A :=
  match parseErrorFromResultLog resultLog with
  | (_, Some perr) =>
      logf LvWarn "Failed to parse error message from result log, error: %s" [perr]
  | (errorMsg, None) =>
      if negb (is_empty errorMsg) then logf LvError "%s" [errorMsg] else mret tt
  end;;
  export_full_results resultLog;;
  failf "Test failed, error: %s" [err].

(** Lines 306-365: the loop over the referred projects of one test
    project; the result is the value of [resultLog] and the state of
    [nunitConsole] after the loop. *)
Fixpoint referred_loop (configs : ConfigsModel) (projectOutputMap : ProjectOutputMap)
    (nunitConsole : NunitConsole) (testProjectName : string)
    (testProjectOutput : TestProjectOutputModel)
    (names : list string) (resultLog : string) : M (string * NunitConsole) :=
  match names with
  | [] => mret (resultLog, nunitConsole)
  | projectName :: rest =>
      match projectOutputMap !! projectName with
      | None =>
          referred_loop configs projectOutputMap nunitConsole testProjectName
            testProjectOutput rest resultLog
      | Some projectOutput =>
          let appPth := find_app (Outputs projectOutput) in
          (if is_empty appPth
           then failf "No app generated for project: %s" [projectName]
           else mret tt);;
          err ← Setenv "APP_BUNDLE_PATH" appPth;
          match err with
          | Some err =>
              failf "Failed to set APP_BUNDLE_PATH environment, without this env test will fail, error: %s" [err]
          | None => mret tt
          end;;
          Println;;
          logf LvInfo "Testing (%s) against (%s)" [testProjectName; projectName];;
          logf LvPrint "test dll: %s" [Pth (Output testProjectOutput)];;
          logf LvPrint "app: %s" [appPth];;
          let nunitConsole := SetDLLPth nunitConsole (Pth (Output testProjectOutput)) in
          let nunitConsole := SetTestToRun nunitConsole (TestToRun configs) in
          Println;;
          logf LvInfo "Running Xamarin UITest" [];;
          logf LvDone "$ %s" [PrintableCommand collab nunitConsole];;
          Println;;
          err ← ask (fun w => nunit_Run collab w nunitConsole);
          env ← ask environ;
          emit (EvRun nunitConsole env err);;
          '(testLog, readErr) ← ask (testResultLogContent (resultLogPth nunitConsole));
          emit (EvReadResult (resultLogPth nunitConsole) testLog readErr);;
          match readErr with
          | Some readErr => logf LvWarn "Failed to read test result, error: %s" [readErr]
          | None => mret tt
          end;;
          let resultLog := testLog in
          match err with
          | Some err => test_failed resultLog err
          | None =>
              referred_loop configs projectOutputMap nunitConsole testProjectName
                testProjectOutput rest resultLog
          end
      end
  end.

(** Lines 300-366: the loop over the test projects, in the order of the
    [range]. *)
Fixpoint tests_loop (configs : ConfigsModel) (projectOutputMap : ProjectOutputMap)
    (nunitConsole : NunitConsole)
    (tests : list (string * TestProjectOutputModel)) (resultLog : string)
  : M string :=
  match tests with
  | [] => mret resultLog
  | (testProjectName, testProjectOutput) :: rest =>
      match ReferredProjectNames testProjectOutput with
      | [] =>
          logf LvWarn "Test project (%s) does not refers to any project, skipping..."
            [testProjectName];;
          tests_loop configs projectOutputMap nunitConsole rest resultLog
      | names =>
          '(resultLog, nunitConsole) ←
            referred_loop configs projectOutputMap nunitConsole
              testProjectName testProjectOutput names resultLog;
          tests_loop configs projectOutputMap nunitConsole rest resultLog
      end
  end.

(** Lines 368-376. *)
Definition finish (resultLog : string) : M unit :=
  err ← exportEnvironmentWithEnvman RESULT_KEY "succeeded";
  match err with
  | Some err =>
      logf LvWarn "Failed to export environment: %s, error: %s" [RESULT_KEY; err]
  | None => mret tt
  end;;
  export_full_results resultLog.

(** [if err != nil { failf(format, err) }]. *)
Definition fail_on (err : option error) (format : string) : M unit :=
  match err with
  | Some err => failf format [err]
  | None => mret tt
  end.

Definition main : M unit :=
  configs ← createConfigsModelFromEnvs;
  Println;;
  print configs;;
  err ← ask (validate configs);
  fail_on err "Issue with input: %s";;
  (* Get Simulator Infos *)
  Println;;
  logf LvInfo "Collecting simulator info..." [];;
  let '(simulatorInfo, err) :=
    getSimulatorInfo (GetOsVersionSimulatorInfosMap collab) (simulators_range collab)
      (SimulatorOsVersion configs) (SimulatorDevice configs) in
  fail_on err "Failed to get simulator infos, error: %s";;
  logf LvDone "Simulator (%s), id: (%s), status: %s"
    [Name simulatorInfo; ID simulatorInfo; Status simulatorInfo];;
  err ← Setenv "IOS_SIMULATOR_UDID" (ID simulatorInfo);
  fail_on err "Failed to export simulator UDID, error: %s";;
  (* Nunit Console path *)
  let '(nunitConsolePth, err) := SystemNunit3ConsolePath collab in
  fail_on err "Failed to get system insatlled nunit3-console.exe path, error: %s";;
  (* build *)
  Println;;
  logf LvInfo "Building all iOS Xamarin UITest and Referred Projects in solution: %s"
    [XamarinSolution configs];;
  fail_on (builder_New collab) "Failed to create xamarin builder, error: %s";;
  emit (EvBuild (XamarinConfiguration configs) (XamarinPlatform configs));;
  let '(commands, warnings, err) := BuildAllXamarinUITestAndReferredProjects collab in
  callbacks commands;;
  log_warnings warnings;;
  fail_on err "Build failed, error: %s";;
  let '(projectOutputMap, err) := CollectProjectOutputs collab in
  fail_on err "Failed to collect project outputs, error: %s";;
  let '(testProjectOutputMap, warnings, err) :=
    CollectXamarinUITestProjectOutputs collab in
  log_warnings warnings;;
  fail_on err "Failed to collect test project output, error: %s";;
  (* Run nunit tests *)
  fail_on (nunit_New collab) "Failed to create nunit console model, error: %s";;
  let resultLogPth := filepath_Join collab (DeployDir configs) "TestResult.xml" in
  let nunitConsole :=
    SetResultLogPth
      {| nunitConsolePth := nunitConsolePth; resultLogPth := EmptyString;
         dllPth := EmptyString; testToRun := EmptyString |}
      resultLogPth in
  (* Artifacts *)
  resultLog ← tests_loop configs projectOutputMap nunitConsole testProjectOutputMap
                EmptyString;
  finish resultLog.

(** The process: [main] returns (exit status 0) or exits. *)
Definition run (environ0 : gmap string string) : Z * World :=
  match main {| environ := environ0; trace := [] |} with
  | (Ret _, w) => (0, w)
  | (Exit code, w) => (code, w)
  end.

End Program.

(** ** Vocabulary of the statements *)

(** Line 101: the key belongs to the iOS family. *)
Definition has_ios_prefix (osVersion : string) : bool :=
  strings.HasPrefix osVersion "iOS".

(** Lines 105-106: what is handed to the version parser. *)
Definition version_suffix (osVersion : string) : string :=
  strings.TrimSpace (strings.TrimPrefix osVersion "iOS").

(** Line 110. *)
Definition parse_error_message (versionStr err : string) : string :=
  "Failed to parse version (" +:+ versionStr +:+ "), error: " +:+ err.

(** Components read from runs of digits are not negative. *)
Definition nonneg (segs : list Z) : Prop := Forall (fun x => 0 <= x) segs.

(** [v] is the parsed suffix of a key of the iOS family among [keys]. *)
Definition parsed_among (keys : list string) (v : Dotted.t) : Prop :=
  exists k, k ∈ keys /\ has_ios_prefix k = true /\
            Dotted.NewVersion (version_suffix k) = Ok v.

(** A bucket is found and holds no simulator named [deviceName], or no
    bucket is found. *)
Definition device_not_found (m : OsVersionSimulatorInfosMap)
    (key deviceName : string) : Prop :=
  m !! key = None \/
  exists infos, m !! key = Some infos /\ Forall (fun i => Name i <> deviceName) infos.

(** Lines 146 and 155. *)
Definition not_found_message (m : OsVersionSimulatorInfosMap)
    (key deviceName : string) : string :=
  match m !! key with
  | None => "No simulators found for os version: " +:+ key
  | Some _ =>
      "No simulators found for os version: (" +:+ key
      +:+ "), device name: (" +:+ deviceName +:+ ")"
  end.

(** ** Sample inputs *)

Module Sample.

Definition device (name id : string) : InfoModel :=
  {| Name := name; ID := id; Status := "Shutdown" |}.

(** The buckets of the spec's scenario. *)
Definition two_buckets : OsVersionSimulatorInfosMap :=
  <["iOS 12.1" := ([device "iPhone 8" "X"])]>
    (<["iOS 11.4" := ([device "iPhone 8" "Y"])]> ∅).

(** A bucket with two simulators of the same name, and a longer name. *)
Definition twins : OsVersionSimulatorInfosMap :=
  <["iOS 12.1" := ([device "iPhone 8 Plus" "P"; device "iPhone 8" "A";
                    device "iPhone 8" "B"])]> ∅.

(** Keys whose numeric order differs from their order as strings, with
    a key of another family. *)
Definition mixed_keys : list string := ["iOS 9.3"; "tvOS 12.0"; "iOS 10.0"].

Definition broken_keys : list string :=
  ["watchOS 5.0"; "iOS 12.1"; "iOS beta"; "iOS 13.0"].

End Sample.

(** ** Vocabulary for the result log *)

(** Line 181. *)
Definition is_failure_marker (text : string) : Prop :=
  strings.TrimSpace text = "<failure>".

(** Line 186, second conjunct. *)
Definition is_message_line (text : string) : Prop :=
  strings.HasPrefix (strings.TrimSpace text) "<message>" = true.

(** Somewhere in [ls] a message line directly follows a failure marker. *)
Definition adjacent_pair (ls : list string) : Prop :=
  exists pre f m post,
    ls = pre ++ f :: m :: post /\ is_failure_marker f /\ is_message_line m.

(** No line of [content] reaches the scanner's buffer size. *)
Definition every_line_fits (content : string) : Prop :=
  Forall (fun raw => Z.of_nat (String.length raw) < bufio.MaxScanTokenSize)
    (strings.split_byte (ascii_of_nat 10) content).

(** The message of the last adjacent pair of the text is returned, for a
    text with two adjacent pairs (and no third one after them). *)
Definition last_pair_wins (content : string) : Prop :=
  forall l0 f1 m1 l1 f2 m2 l2,
    bufio.lines content = l0 ++ [f1; m1] ++ l1 ++ [f2; m2] ++ l2 ->
    is_failure_marker f1 -> is_message_line m1 ->
    is_failure_marker f2 -> is_message_line m2 ->
    ~ adjacent_pair l2 ->
    parseErrorFromResultLog content = (strings.TrimSpace m2, None).

Module SampleLog.

Definition filler (n : N) : string :=
  string_of_list_ascii (repeat (ascii_of_nat 120) (N.to_nat n)).

Definition two_pairs : string :=
  "<failure>" +:+ nl +:+ "  <message>first</message>" +:+ nl
  +:+ "</failure>" +:+ nl
  +:+ "<failure>" +:+ nl +:+ "  <message>second</message>" +:+ nl.

(** Two pairs, with a line of 65536 bytes between them. *)
Definition long_line : string :=
  "<failure>" +:+ nl +:+ "<message>first</message>" +:+ nl
  +:+ filler 65536 +:+ nl
  +:+ "<failure>" +:+ nl +:+ "<message>second</message>" +:+ nl.

(** A message line separated from its failure marker. *)
Definition separated : string :=
  "<failure>" +:+ nl +:+ "<stack-trace/>" +:+ nl
  +:+ "<message>late</message>" +:+ nl.

End SampleLog.

(** ** Vocabulary for runs of [main] *)

(** The values exported under the result key, oldest first. *)
Definition result_values (h : list Event) : list string :=
  omap (fun e => match e with
                 | EvExport keyStr valueStr _ =>
                     if String.eqb keyStr RESULT_KEY then Some valueStr else None
                 | _ => None
                 end) h.

(** The value of the variable [resultLog] after the actions [h]: the
    content delivered by the latest reading of the report file, the empty
    string before the first one. *)
Definition retained (h : list Event) : string :=
  fold_left (fun r e => match e with EvReadResult _ content _ => content | _ => r end)
    h EmptyString.

(** Every export of the full results text carries the retained result
    log, and that log is not empty. *)
Definition full_exports_carry_retained (h : list Event) : Prop :=
  forall h1 v err h2,
    h = h1 ++ EvExport FULL_RESULTS_KEY v err :: h2 ->
    v <> EmptyString /\ v = retained h1.

(** The test-runner invocations, oldest first, each with the process
    environment it inherits. *)
Definition invocations (h : list Event) : list (NunitConsole * gmap string string) :=
  omap (fun e => match e with EvRun c env _ => Some (c, env) | _ => None end) h.

(** An action that neither exports nor reads the report. *)
Definition silent (e : Event) : Prop :=
  match e with
  | EvExport _ _ _ | EvReadResult _ _ _ => False
  | _ => True
  end.

Definition record (e : Event) (w : World) : World :=
  {| environ := environ w; trace := trace w ++ [e] |}.

(** Partial-correctness triples with a postcondition for normal return
    and one for exit; every computation of the model terminates. *)
Definition hoare {A} (P : World -> Prop) (m : M A)
    (Q : A -> World -> Prop) (E : Z -> World -> Prop) : Prop :=
  forall w, P w ->
    match m w with
    | (Ret a, w') => Q a w'
    | (Exit code, w') => E code w'
    end.

(** Nothing exported under the result key yet, [rl] retained, the exports
    of the full text in order. *)
Definition Running (rl : string) (w : World) : Prop :=
  result_values (trace w) = [] /\ retained (trace w) = rl /\
  full_exports_carry_retained (trace w).

(** The process exits after a fatal error. *)
Definition Fatal (code : Z) (w : World) : Prop :=
  code = 1 /\ result_values (trace w) = ["failed"] /\
  full_exports_carry_retained (trace w).

(** The process returns from [main]. *)
Definition Succeeded (w : World) : Prop :=
  result_values (trace w) = ["succeeded"] /\
  full_exports_carry_retained (trace w).

(** A computation that keeps the run going, or ends it fatally. *)
Definition steady {A} (m : M A) : Prop :=
  forall rl, hoare (Running rl) m (fun _ => Running rl) Fatal.

(** The run aborts fatally and the test runner was never invoked. *)
Definition aborts_before_any_invocation {lib : VersionLib}
    (collab : Collaborators) (environ0 : gmap string string) : Prop :=
  (run collab environ0).1 = 1 /\
  invocations (trace (run collab environ0).2) = [].

(** No output of the list is tagged as an application bundle. *)
Definition no_app_output (outputs : list OutputModel) : Prop :=
  Forall (fun output => OutputType output <> OutputTypeAPP) outputs.

(** Lines 330-341: what is printed between the setting of the bundle path
    and the invocation. *)
Definition announce (testProjectName projectName appPth command : string)
    (testProjectOutput : TestProjectOutputModel) : list Event :=
  [ EvPrintln;
    EvLog LvInfo "Testing (%s) against (%s)" [testProjectName; projectName];
    EvLog LvPrint "test dll: %s" [Pth (Output testProjectOutput)];
    EvLog LvPrint "app: %s" [appPth];
    EvPrintln;
    EvLog LvInfo "Running Xamarin UITest" [];
    EvLog LvDone "$ %s" [command];
    EvPrintln ].

(** The world in which [failf] exits. *)
Definition after_failf (collab : Collaborators) (format : string)
    (v : list string) (w : World) : World :=
  let w1 := record (EvLog LvError format v) w in
  let answer := envman_add collab w1 RESULT_KEY "failed" in
  let w2 := record (EvExport RESULT_KEY "failed" answer) w1 in
  match answer with
  | Some err =>
      record (EvLog LvWarn "Failed to export environment: %s, error: %s"
                [RESULT_KEY; err]) w2
  | None => w2
  end.

(** A step that returns after adding actions other than invocations. *)
Definition adds_no_invocation (m : M unit) : Prop :=
  forall w, exists h,
    m w = (Ret tt, {| environ := environ w; trace := trace w ++ h |})
    /\ invocations h = [].

(** A computation only adds actions to the trace. *)
Definition grows {A} (m : M A) : Prop :=
  forall w, exists h, trace (m w).2 = trace w ++ h.

Module SampleRun.

Definition app1 : OutputModel :=
  {| Pth := "/build/App1.app"; OutputType := OutputTypeAPP |}.

Definition lib2 : OutputModel :=
  {| Pth := "/build/Lib2.dll"; OutputType := OutputTypeOther "dll" |}.

Definition uitests : OutputModel :=
  {| Pth := "/build/UITests.dll"; OutputType := OutputTypeOther "dll" |}.

(** [App1] has an application bundle, [Lib2] has none. *)
Definition outputs : ProjectOutputMap :=
  <["App1" := {| Outputs := [app1] |}]>
    (<["Lib2" := {| Outputs := [lib2] |}]> ∅).

Definition environment : gmap string string :=
  list_to_map
    [("xamarin_project", "/src/App.sln"); ("xamarin_configuration", "Debug");
     ("xamarin_platform", "iPhoneSimulator"); ("simulator_device", "iPhone 8");
     ("simulator_os_version", "latest"); ("BITRISE_DEPLOY_DIR", "/deploy")].

(** One test project referring to [refs]; every invocation of the test
    runner answers [run_answer] and leaves [report] in the report file. *)
Definition collaborators (refs : list string) (run_answer : option error)
    (report : string) : Collaborators :=
  {| IsPathExists := fun _ _ => (true, None);
     ReadStringFromFile := fun _ _ => (report, None);
     filepath_Join := fun dir file => dir +:+ "/" +:+ file;
     Setenv_answer := fun _ _ _ => None;
     envman_add := fun _ _ _ => None;
     GetOsVersionSimulatorInfosMap := Ok Sample.two_buckets;
     simulators_range := ["iOS 11.4"; "iOS 12.1"];
     SystemNunit3ConsolePath := ("/nunit/nunit3-console.exe", None);
     builder_New := None;
     BuildAllXamarinUITestAndReferredProjects := ([], [], None);
     CollectProjectOutputs := (outputs, None);
     CollectXamarinUITestProjectOutputs :=
       ([("UITests", {| ReferredProjectNames := refs; Output := uitests |})],
        [], None);
     nunit_New := None;
     PrintableCommand := fun c => "mono " +:+ nunitConsolePth c;
     nunit_Run := fun _ _ => run_answer |}.

Definition app_old : OutputModel :=
  {| Pth := "/build/old/App1.app"; OutputType := OutputTypeAPP |}.

(** [Twice] has two application bundles, [Blank] one with an empty path. *)
Definition more_outputs : ProjectOutputMap :=
  <["Twice" := {| Outputs := [app_old; lib2; app1; uitests] |}]>
    (<["Blank" := {| Outputs := [app1; {| Pth := EmptyString; OutputType := OutputTypeAPP |}] |}]> ∅).

Definition configs : ConfigsModel :=
  {| XamarinSolution := "/src/App.sln"; XamarinConfiguration := "Debug";
     XamarinPlatform := "iPhoneSimulator"; TestToRun := EmptyString;
     SimulatorDevice := "iPhone 8"; SimulatorOsVersion := "latest";
     DeployDir := "/deploy" |}.

Definition console : NunitConsole :=
  {| nunitConsolePth := "/nunit/nunit3-console.exe";
     resultLogPth := "/deploy/TestResult.xml";
     dllPth := EmptyString; testToRun := EmptyString |}.

Definition test_project (refs : list string) : TestProjectOutputModel :=
  {| ReferredProjectNames := refs; Output := uitests |}.

Definition start : World := {| environ := environment; trace := [] |}.

Definition failing_report : string :=
  "<failure>" +:+ nl +:+ "<message>boom</message>" +:+ nl.

(** The exports of a run, oldest first. *)
Definition exports (h : list Event) : list (string * string) :=
  omap (fun e => match e with
                 | EvExport keyStr valueStr _ => Some (keyStr, valueStr)
                 | _ => None
                 end) h.

(** The reports handed to the runs of the test runner: their dll. *)
Definition invoked (h : list Event) : list string :=
  (fun r => dllPth r.1) <$> invocations h.

End SampleRun.

(** ** Further sample inputs *)

Module SampleMore.

(** Keys of other platform families only. *)
Definition foreign_keys : list string := ["tvOS 12.0"; "watchOS 5.1"].

(** The same keys in two visiting orders, with versions of different
    lengths. *)
Definition order_a : list string := ["iOS 9.3"; "iOS 12.1.2"; "tvOS 12.0"; "iOS 12.1"].
Definition order_b : list string := ["iOS 12.1"; "tvOS 12.0"; "iOS 12.1.2"; "iOS 9.3"].

(** A configuration in which only the fields that [validate] reads are
    filled in. *)
Definition minimal_configs : ConfigsModel :=
  {| XamarinSolution := "/src/App.sln"; XamarinConfiguration := "Debug";
     XamarinPlatform := "iPhoneSimulator"; TestToRun := EmptyString;
     SimulatorDevice := "iPhone 8"; SimulatorOsVersion := EmptyString;
     DeployDir := EmptyString |}.

(** The collaborators of [SampleRun], with a build that fails. *)
Definition broken_build : Collaborators :=
  let good := SampleRun.collaborators ["App1"] None SampleRun.failing_report in
  {| IsPathExists := IsPathExists good;
     ReadStringFromFile := ReadStringFromFile good;
     filepath_Join := filepath_Join good;
     Setenv_answer := Setenv_answer good;
     envman_add := envman_add good;
     GetOsVersionSimulatorInfosMap := GetOsVersionSimulatorInfosMap good;
     simulators_range := simulators_range good;
     SystemNunit3ConsolePath := SystemNunit3ConsolePath good;
     builder_New := builder_New good;
     BuildAllXamarinUITestAndReferredProjects :=
       ([], ["warning: deprecated target"], Some "exit status 1");
     CollectProjectOutputs := CollectProjectOutputs good;
     CollectXamarinUITestProjectOutputs := CollectXamarinUITestProjectOutputs good;
     nunit_New := nunit_New good;
     PrintableCommand := PrintableCommand good;
     nunit_Run := nunit_Run good |}.

(** The collaborators of [SampleRun], on a file system where nothing
    exists. *)
Definition missing_solution : Collaborators :=
  let good := SampleRun.collaborators ["App1"] None SampleRun.failing_report in
  {| IsPathExists := fun _ _ => (false, None);
     ReadStringFromFile := ReadStringFromFile good;
     filepath_Join := filepath_Join good;
     Setenv_answer := Setenv_answer good;
     envman_add := envman_add good;
     GetOsVersionSimulatorInfosMap := GetOsVersionSimulatorInfosMap good;
     simulators_range := simulators_range good;
     SystemNunit3ConsolePath := SystemNunit3ConsolePath good;
     builder_New := builder_New good;
     BuildAllXamarinUITestAndReferredProjects :=
       BuildAllXamarinUITestAndReferredProjects good;
     CollectProjectOutputs := CollectProjectOutputs good;
     CollectXamarinUITestProjectOutputs := CollectXamarinUITestProjectOutputs good;
     nunit_New := nunit_New good;
     PrintableCommand := PrintableCommand good;
     nunit_Run := nunit_Run good |}.

End SampleMore.

(** ** Vocabulary for the pairing loop *)

(** The warning of line 302 for each test project, in order. *)
Definition skip_warnings (tests : list (string * TestProjectOutputModel))
  : list Event :=
  (fun t => EvLog LvWarn
              "Test project (%s) does not refers to any project, skipping..." [t.1])
    <$> tests.

(** The pairs that the loop tests: for each test project in order, and
    each of its referred projects that the output map knows, the test
    assembly and the bundle path. *)
Definition matched_refs (pom : ProjectOutputMap) (tout : TestProjectOutputModel)
    (names : list string) : list (string * string) :=
  p ← names;
  match pom !! p with
  | Some o => [(Pth (Output tout), find_app (Outputs o))]
  | None => []
  end.

Definition matched_pairs (pom : ProjectOutputMap)
    (tests : list (string * TestProjectOutputModel)) : list (string * string) :=
  t ← tests; matched_refs pom t.2 (ReferredProjectNames t.2).

(** What an invocation was given: the test assembly of the command and
    the bundle path of its environment. *)
Definition invoked_pairs (h : list Event) : list (string * option string) :=
  (fun r => (dllPth r.1, r.2 !! "APP_BUNDLE_PATH")) <$> invocations h.

Definition expected_pairs (pairs : list (string * string))
  : list (string * option string) :=
  (fun d => (d.1, Some d.2)) <$> pairs.

(** The answers of the test-runner invocations, oldest first. *)
Definition run_answers (h : list Event) : list (option error) :=
  omap (fun e => match e with EvRun _ _ err => Some err | _ => None end) h.

(** The environment of an invocation made by a loop that started in the
    environment [env0]: a bundle path that is not empty, and elsewhere
    what [env0] has. *)
Definition bundle_env (env0 : gmap string string)
    (r : NunitConsole * gmap string string) : Prop :=
  (exists a, r.2 !! "APP_BUNDLE_PATH" = Some a /\ a <> EmptyString) /\
  forall key, key <> "APP_BUNDLE_PATH" -> r.2 !! key = env0 !! key.

(** What a loop of [main] has done when it stops, as seen in the actions
    [h] it added: on normal return the invocations are exactly [pairs] and
    all succeeded; on exit the status is 1, the invocations are the first
    of [pairs], and all but the last succeeded. *)
Definition loop_report {A} (out : Outcome A) (pairs : list (string * string))
    (h : list Event) : Prop :=
  match out with
  | Ret _ =>
      invoked_pairs h = expected_pairs pairs /\
      Forall (fun err => err = None) (run_answers h)
  | Exit code =>
      code = 1 /\
      invoked_pairs h `prefix_of` expected_pairs pairs /\
      Forall (fun err => err = None) (removelast (run_answers h))
  end.

(** ** Vocabulary for the run as a whole *)

(** An action other than an invocation of the test runner. *)
Definition quiet (e : Event) : Prop :=
  match e with EvRun _ _ _ => False | _ => True end.

(** A property of the world that actions other than invocations keep. *)
Definition quiet_stable (Inv : World -> Prop) : Prop :=
  forall e w, quiet e -> Inv w -> Inv (record e w).

(** A computation that keeps [I], whether it returns or exits, and exits
    with status 1 only. *)
Definition calm (Inv : World -> Prop) {A} (m : M A) : Prop :=
  hoare Inv m (fun _ => Inv) (fun code w => code = 1 /\ Inv w).

(** The environment that [main] prepares for the test process: the
    simulator identifier is set and the bundle path is not empty. *)
Definition test_env (r : NunitConsole * gmap string string) : Prop :=
  is_Some (r.2 !! "IOS_SIMULATOR_UDID") /\
  exists a, r.2 !! "APP_BUNDLE_PATH" = Some a /\ a <> EmptyString.

(** The pairs that a run has to test, from the answers of the builder. *)
Definition pairs_of (collab : Collaborators) : list (string * string) :=
  matched_pairs (CollectProjectOutputs collab).1
    (CollectXamarinUITestProjectOutputs collab).1.1.

(** No invocation so far. *)
Definition before_tests (w : World) : Prop := invocations (trace w) = [].

(** No invocation so far, and the simulator identifier is set. *)
Definition ready_for_tests (w : World) : Prop :=
  invocations (trace w) = [] /\ is_Some (environ w !! "IOS_SIMULATOR_UDID").

(** The report of a run that has stopped with [out]. *)
Definition run_report {A} (pairs : list (string * string)) (out : Outcome A)
    (w : World) : Prop :=
  loop_report out pairs (trace w) /\ Forall test_env (invocations (trace w)).

(** The configuration that [createConfigsModelFromEnvs] reads from the
    environment [env]. *)
Definition configs_of (env : gmap string string) : ConfigsModel :=
  {| XamarinSolution := default EmptyString (env !! "xamarin_project");
     XamarinConfiguration := default EmptyString (env !! "xamarin_configuration");
     XamarinPlatform := default EmptyString (env !! "xamarin_platform");
     TestToRun := default EmptyString (env !! "test_to_run");
     SimulatorDevice := default EmptyString (env !! "simulator_device");
     SimulatorOsVersion := default EmptyString (env !! "simulator_os_version");
     DeployDir := default EmptyString (env !! "BITRISE_DEPLOY_DIR") |}.

(** The fields that [validate] requires are filled in. *)
Definition required_fields (configs : ConfigsModel) : Prop :=
  XamarinSolution configs <> EmptyString /\
  XamarinConfiguration configs <> EmptyString /\
  XamarinPlatform configs <> EmptyString /\
  SimulatorDevice configs <> EmptyString.

(** The world in which [main] calls [validate] (line 212) when it is
    started in the environment [environ0]: the environment is untouched,
    and the empty line and the configuration have been printed (lines
    209-210). *)
Definition at_validation (environ0 : gmap string string) : World :=
  ((Println ;; print (configs_of environ0))
     {| environ := environ0; trace := [] |}).2.

(** Everything that [main] does before the pairing loop has succeeded:
    [validate] accepted the configuration when [main] called it (so the
    required fields are filled in and the solution file was found), and
    every later step answered without error. *)
Definition prepared {lib : VersionLib} (collab : Collaborators)
    (environ0 : gmap string string) : Prop :=
  validate collab (configs_of environ0) (at_validation environ0) = None /\
  required_fields (configs_of environ0) /\
  (getSimulatorInfo (GetOsVersionSimulatorInfosMap collab) (simulators_range collab)
     (SimulatorOsVersion (configs_of environ0))
     (SimulatorDevice (configs_of environ0))).2 = None /\
  (SystemNunit3ConsolePath collab).2 = None /\
  builder_New collab = None /\
  (BuildAllXamarinUITestAndReferredProjects collab).2 = None /\
  (CollectProjectOutputs collab).2 = None /\
  (CollectXamarinUITestProjectOutputs collab).2 = None /\
  nunit_New collab = None.

(** ** The actions of a run *)

(** The actions that a run started in the environment [environ0] can
    perform: printing; setting one of two environment variables; the
    build of the configured configuration and platform; an invocation of
    the console that the system lookup found, with the configured test
    filter and the report at TestResult.xml in the deploy directory; a
    reading of that report; an export of the result key with one of its
    two values, or of the full-results key with a value that is not
    empty. *)
Definition expected_action (collab : Collaborators) (environ0 : gmap string string)
    (e : Event) : Prop :=
  match e with
  | EvPrintln | EvLog _ _ _ => True
  | EvSetenv key _ _ => key = "IOS_SIMULATOR_UDID" \/ key = "APP_BUNDLE_PATH"
  | EvBuild configuration platform =>
      configuration = XamarinConfiguration (configs_of environ0) /\
      platform = XamarinPlatform (configs_of environ0)
  | EvRun c _ _ =>
      nunitConsolePth c = (SystemNunit3ConsolePath collab).1 /\
      resultLogPth c
      = filepath_Join collab (DeployDir (configs_of environ0)) "TestResult.xml" /\
      testToRun c = TestToRun (configs_of environ0)
  | EvReadResult pth _ _ =>
      pth = filepath_Join collab (DeployDir (configs_of environ0)) "TestResult.xml"
  | EvExport keyStr valueStr _ =>
      (keyStr = RESULT_KEY /\ (valueStr = "succeeded" \/ valueStr = "failed"))
      \/ (keyStr = FULL_RESULTS_KEY /\ valueStr <> EmptyString)
  end.

(** All actions so far are among [S]. *)
Definition all_actions (S : Event -> Prop) (w : World) : Prop :=
  Forall S (trace w).

(** A computation whose actions are among [S]. *)
Definition within (S : Event -> Prop) {A} (m : M A) : Prop :=
  hoare (all_actions S) m (fun _ => all_actions S) (fun _ => all_actions S).

(** The console as [main] has configured it before the loops. *)
Definition console_of (collab : Collaborators) (environ0 : gmap string string)
    (c : NunitConsole) : Prop :=
  nunitConsolePth c = (SystemNunit3ConsolePath collab).1 /\
  resultLogPth c
  = filepath_Join collab (DeployDir (configs_of environ0)) "TestResult.xml".

(** * Facts *)

Module DottedFacts.
Import Dotted.

Lemma allZero_cons x a : allZero (x :: a) = true <-> x = 0 /\ allZero a = true.
Proof.
  unfold allZero; cbn [forallb]. rewrite andb_true_iff, Z.eqb_eq. intuition congruence.
Qed.

Lemma allZero_below a c :
  allZero a = true -> nonneg c -> compare_segments a c <> Gt.
Proof.
  revert c. induction a as [|x a IH]; intros [|z c] Ha Hc; cbn [compare_segments]; try done.
  - by destruct (allZero (z :: c)).
  - by rewrite Ha.
  - apply allZero_cons in Ha as [-> Ha]. inversion_clear Hc as [|? ? Hz Hc'].
    destruct (Z.compare_spec 0 z); try done; [by apply IH | lia].
Qed.

Lemma below_allZero a b :
  nonneg a -> allZero b = true -> compare_segments a b <> Gt -> allZero a = true.
Proof.
  revert b. induction a as [|x a IH]; intros b Ha Hb Hle; [done|].
  destruct b as [|y b]; cbn [compare_segments] in Hle.
  - by destruct (allZero (x :: a)).
  - apply allZero_cons in Hb as [-> Hb]. inversion_clear Ha as [|? ? Hx Ha'].
    apply allZero_cons.
    destruct (Z.compare_spec x 0); try done; [split; eauto | lia].
Qed.

Lemma below_nil a : compare_segments a [] <> Gt -> allZero a = true.
Proof. destruct a; cbn [compare_segments]; [done|]. by destruct (allZero _). Qed.

Lemma below_trans a b c :
  nonneg a -> nonneg b -> nonneg c ->
  compare_segments a b <> Gt -> compare_segments b c <> Gt ->
  compare_segments a c <> Gt.
Proof.
  revert b c. induction a as [|x a IH]; intros b c Ha Hb Hc Hab Hbc.
  - destruct c as [|z c]; cbn [compare_segments]; [done|].
    by destruct (allZero (z :: c)).
  - destruct c as [|z c].
    + assert (allZero b = true) as Hzb by by apply below_nil.
      pose proof (below_allZero _ _ Ha Hzb Hab) as Hza.
      cbn [compare_segments]. by rewrite Hza.
    + destruct b as [|y b].
      * apply allZero_below; [by apply below_nil | done].
      * cbn [compare_segments] in *. inversion_clear Ha. inversion_clear Hb. inversion_clear Hc.
        destruct (Z.compare_spec x y) as [->| |]; [| |done];
          (destruct (Z.compare_spec y z) as [->| |]; [| |done]).
        { by apply (IH b c). }
        { done. }
        { by replace (x ?= z) with Lt by (symmetry; apply Z.compare_lt_iff; lia). }
        { by replace (x ?= z) with Lt by (symmetry; apply Z.compare_lt_iff; lia). }
Qed.

Lemma above_below a b : compare_segments a b = Gt -> compare_segments b a <> Gt.
Proof.
  revert b. induction a as [|x a IH]; intros [|y b]; cbn [compare_segments]; try done.
  - by destruct (allZero (y :: b)).
  - by destruct (allZero (x :: a)).
  - destruct (Z.compare_spec x y), (Z.compare_spec y x); try done; try lia.
    apply IH.
Qed.
End DottedFacts.

Module DottedParse.
Import Dotted DottedFacts.

Lemma digits_value_nonneg s acc :
  all_digits s = true -> 0 <= acc -> 0 <= digits_value acc s.
Proof.
  revert acc. induction s as [|c s IH]; intros acc Hd Hacc; [done|].
  cbn [all_digits digits_value] in *. apply andb_true_iff in Hd as [Hc Hs].
  apply IH; [done|]. unfold is_digit in Hc.
  apply andb_true_iff in Hc as [Hlo _]. apply Nat.leb_le in Hlo. lia.
Qed.

Lemma parse_segments_nonneg strs segs :
  forallb is_number strs = true -> parse_segments strs = Ok segs -> nonneg segs.
Proof.
  revert segs. induction strs as [|str strs IH]; intros segs Hn Hp.
  - injection Hp as <-. constructor.
  - cbn [forallb parse_segments] in *. apply andb_true_iff in Hn as [Hstr Hn].
    unfold ParseInt in Hp.
    destruct (digits_value 0 str <=? maxInt64); [|done].
    destruct (parse_segments strs) as [vals|]; [|done].
    injection Hp as <-. constructor; [|by apply IH].
    apply digits_value_nonneg; [|done].
    unfold is_number in Hstr. by apply andb_true_iff in Hstr as [_ ?].
Qed.

Lemma NewVersion_segments s v :
  NewVersion s = Ok v ->
  nonneg (segments v) /\ exists major minor rest, segments v = major :: minor :: rest.
Proof.
  unfold NewVersion. destruct (forallb is_number _) eqn:Hn; [|done].
  destruct (parse_segments _) as [segs|] eqn:Hp; [|done].
  intros [= <-]. cbn [segments]. split.
  - unfold pad3. apply Forall_app. split; [by eapply parse_segments_nonneg|].
    apply Forall_forall. intros x Hx%list_elem_of_In%repeat_spec. lia.
  - unfold pad3. destruct segs as [|a [|b segs]]; cbn; eauto.
Qed.
End DottedParse.

Section SelectionFacts.
Context {lib : VersionLib}.

Lemma latest_loop_skip keys acc :
  latest_loop (filter (fun k => has_ios_prefix k = true) keys) acc
  = latest_loop keys acc.
Proof.
  revert acc. induction keys as [|k keys IH]; intros acc; [done|].
  rewrite filter_cons. cbn [latest_loop]. fold (has_ios_prefix k).
  destruct (decide (has_ios_prefix k = true)) as [Hk|Hk].
  - cbn [latest_loop]. fold (has_ios_prefix k). rewrite Hk. cbn [negb].
    destruct (NewVersion _); [apply IH | done].
  - apply not_true_is_false in Hk. rewrite Hk. cbn [negb]. apply IH.
Qed.

Lemma latest_loop_first_failure pre k post e acc :
  (forall k', k' ∈ pre -> has_ios_prefix k' = true ->
              exists v, NewVersion (version_suffix k') = Ok v) ->
  has_ios_prefix k = true ->
  NewVersion (version_suffix k) = Err e ->
  latest_loop (pre ++ k :: post) acc
  = Err (parse_error_message (version_suffix k) e).
Proof.
  intros Hpre Hk He. revert acc.
  induction pre as [|k' pre IH]; intros acc; cbn [app latest_loop].
  - fold (has_ios_prefix k) (version_suffix k). by rewrite Hk, He.
  - fold (has_ios_prefix k') (version_suffix k').
    assert (forall k'', k'' ∈ pre -> has_ios_prefix k'' = true ->
              exists v, NewVersion (version_suffix k'') = Ok v) as Hpre'
      by (intros; apply Hpre; [by right | done]).
    destruct (has_ios_prefix k') eqn:Hk'; cbn [negb]; [|by apply IH].
    destruct (Hpre k') as [v ->]; [by left | done |]. by apply IH.
Qed.

Lemma first_failure keys k e :
  k ∈ keys -> has_ios_prefix k = true -> NewVersion (version_suffix k) = Err e ->
  exists pre k0 post e0,
    keys = pre ++ k0 :: post /\
    (forall k', k' ∈ pre -> has_ios_prefix k' = true ->
                exists v, NewVersion (version_suffix k') = Ok v) /\
    has_ios_prefix k0 = true /\ NewVersion (version_suffix k0) = Err e0.
Proof.
  induction keys as [|k1 keys IH]; intros Hin Hk He; [by inversion Hin|].
  destruct (has_ios_prefix k1) eqn:Hk1.
  - destruct (NewVersion (version_suffix k1)) as [v1|e1] eqn:H1.
    + assert (k ∈ keys) as Hin'.
      { inversion Hin; subst; [congruence | done]. }
      destruct (IH Hin' Hk He) as (pre & k0 & post & e0 & -> & Hpre & Hk0 & He0).
      exists (k1 :: pre), k0, post, e0. repeat split; try done.
      intros k' [->|Hk']%elem_of_cons Hp; [by exists v1 | by apply Hpre].
    + exists [], k1, keys, e1. repeat split; try done.
      intros k' Hk'. by inversion Hk'.
  - assert (k ∈ keys) as Hin'.
    { inversion Hin; subst; [congruence | done]. }
    destruct (IH Hin' Hk He) as (pre & k0 & post & e0 & -> & Hpre & Hk0 & He0).
    exists (k1 :: pre), k0, post, e0. repeat split; try done.
    intros k' [->|Hk']%elem_of_cons Hp; [congruence | by apply Hpre].
Qed.

Lemma find_device_first pre info post deviceName :
  Name info = deviceName ->
  Forall (fun i => Name i <> deviceName) pre ->
  find_device (pre ++ info :: post) deviceName = Some info.
Proof.
  intros Hname Hpre. induction Hpre as [|i pre Hi _ IH]; cbn [app find_device].
  - by rewrite (proj2 (String.eqb_eq _ _) Hname).
  - by rewrite (proj2 (String.eqb_neq _ _) Hi).
Qed.

Lemma find_device_none infos deviceName :
  find_device infos deviceName = None <->
  Forall (fun i => Name i <> deviceName) infos.
Proof.
  induction infos as [|i infos IH]; cbn [find_device].
  - split; [constructor | done].
  - destruct (String.eqb_spec (Name i) deviceName) as [Heq|Hne].
    + split; [done|]. by inversion 1.
    + rewrite IH. split; [by constructor | by inversion 1].
Qed.

Lemma find_device_some infos deviceName info :
  find_device infos deviceName = Some info ->
  info ∈ infos /\ Name info = deviceName.
Proof.
  induction infos as [|i infos IH]; cbn [find_device]; [done|].
  destruct (String.eqb_spec (Name i) deviceName) as [Heq|Hne].
  - intros [= <-]. split; [by left | done].
  - intros [Hin Hn]%IH. split; [by right | done].
Qed.
End SelectionFacts.

Module DottedLatest.
Import DottedFacts DottedParse.

Lemma compare_refl a : Dotted.compare_segments a a <> Gt.
Proof.
  induction a as [|x a IH]; cbn [Dotted.compare_segments]; [done|].
  by rewrite Z.compare_refl.
Qed.

Lemma latest_loop_greatest keys acc :
  (forall k, k ∈ keys -> has_ios_prefix k = true ->
             exists v, Dotted.NewVersion (version_suffix k) = Ok v) ->
  (forall a, acc = Some a -> nonneg (Dotted.segments a)) ->
  exists r, latest_loop keys acc = Ok r /\
    (forall a, acc = Some a -> exists v, r = Some v /\ Dotted.Compare a v <> Gt) /\
    (forall v', parsed_among keys v' -> exists v, r = Some v /\ Dotted.Compare v' v <> Gt) /\
    (forall v, r = Some v -> nonneg (Dotted.segments v) /\ (acc = Some v \/ parsed_among keys v)).
Proof.
  revert acc. induction keys as [|k keys IH]; intros acc Hparse Hacc.
  - exists acc. split; [done|]. repeat split.
    + intros a ->. exists a. split; [done | apply compare_refl].
    + intros v' (k & Hk & _). by inversion Hk.
    + by apply Hacc.
    + by left.
  - assert (forall k', k' ∈ keys -> has_ios_prefix k' = true ->
              exists v, Dotted.NewVersion (version_suffix k') = Ok v) as Hparse'
      by (intros; apply Hparse; [by right | done]).
    cbn [latest_loop]. fold (has_ios_prefix k) (version_suffix k).
    destruct (has_ios_prefix k) eqn:Hk; cbn [negb].
    + destruct (Hparse k) as [p Hp]; [by left | done |].
      change (@NewVersion dotted_versions) with Dotted.NewVersion.
      change (@GreaterThan dotted_versions) with Dotted.GreaterThan.
      rewrite Hp.
      destruct (NewVersion_segments _ _ Hp) as [Hpnn _].
      set (acc' := match acc with
                   | None => Some p
                   | Some latest =>
                       if Dotted.GreaterThan p latest then Some p else acc
                   end).
      match goal with
      | |- context [latest_loop keys ?x] => change x with acc'
      end.
      assert (forall a, acc' = Some a -> nonneg (Dotted.segments a)) as Hacc'.
      { intros a. subst acc'. destruct acc as [l|]; [|by intros [= <-]].
        destruct (Dotted.GreaterThan p l); [by intros [= <-] | by apply Hacc]. }
      destruct (IH acc' Hparse' Hacc') as (r & -> & Hr1 & Hr2 & Hr3).
      exists r. split; [done|].
      assert (exists v, r = Some v /\ Dotted.Compare p v <> Gt) as Hpv.
      { subst acc'. destruct acc as [l|]; [|by apply Hr1].
        unfold Dotted.GreaterThan in Hr1. fold (Dotted.Compare p l) in *.
        destruct (Dotted.Compare p l) eqn:Hpl; try by apply Hr1.
        - destruct (Hr1 l eq_refl) as (v & -> & Hlv). exists v. split; [done|].
          destruct (Hr3 v eq_refl) as [Hv _].
          unfold Dotted.Compare in *. eapply (below_trans _ (Dotted.segments l)); eauto.
          by rewrite Hpl.
        - destruct (Hr1 l eq_refl) as (v & -> & Hlv). exists v. split; [done|].
          destruct (Hr3 v eq_refl) as [Hv _].
          unfold Dotted.Compare in *. eapply (below_trans _ (Dotted.segments l)); eauto.
          by rewrite Hpl. }
      repeat split.
      * intros a ->. subst acc'. cbn in Hr1.
        destruct (Dotted.GreaterThan p a) eqn:Hgt; [|by apply Hr1].
        destruct Hpv as (v & -> & Hpv). exists v. split; [done|].
        destruct (Hr3 v eq_refl) as [Hv _].
        unfold Dotted.GreaterThan in Hgt. unfold Dotted.Compare in *.
        destruct (Dotted.compare_segments (Dotted.segments p) (Dotted.segments a)) eqn:Hpa; try done.
        eapply (below_trans _ (Dotted.segments p)); eauto. by apply above_below.
      * intros v' (k' & [->|Hin]%elem_of_cons & Hk' & Hv').
        -- rewrite Hp in Hv'. by injection Hv' as <-.
        -- apply Hr2. by exists k'.
      * by apply Hr3.
      * destruct (Hr3 v H) as [_ [Hv|(k' & Hin & Hk' & Hv')]].
        -- subst acc'. destruct acc as [l|].
           ++ destruct (Dotted.GreaterThan p l); [|by left].
              injection Hv as <-. right. exists k. by repeat split; [left|..].
           ++ injection Hv as <-. right. exists k. by repeat split; [left|..].
        -- right. exists k'. by repeat split; [right|..].
    + destruct (IH acc Hparse' Hacc) as (r & -> & Hr1 & Hr2 & Hr3).
      exists r. split; [done|]. repeat split.
      * done.
      * intros v' (k' & [->|Hin]%elem_of_cons & Hk' & Hv'); [congruence|].
        apply Hr2. by exists k'.
      * by apply Hr3.
      * destruct (Hr3 v H) as [_ [Hv|(k' & Hin & Hk' & Hv')]]; [by left|].
        right. exists k'. by repeat split; [right|..].
Qed.
End DottedLatest.

(** * Simulator selection *)

Example latest_scenario :
  getSimulatorInfo (Ok Sample.two_buckets) ["iOS 11.4"; "iOS 12.1"] "latest" "iPhone 8"
  = (Sample.device "iPhone 8" "X", None).
Proof. vm_compute. reflexivity. Qed.

Example latest_not_string_order :
  getLatestIOSVersion Sample.mixed_keys = ("iOS 10.0", None).
Proof. vm_compute. reflexivity. Qed.

Example latest_drops_patch :
  getLatestIOSVersion ["iOS 12.1.4"; "iOS 12"] = ("iOS 12.1", None).
Proof. vm_compute. reflexivity. Qed.

(** C2.  Whenever at least one key belongs to the iOS family and the
    suffix of every such key parses as a dotted version, resolving
    "latest" succeeds, whatever the order in which the keys are visited:
    some key of the family has a parsed version [v] that no other parsed
    version exceeds in the component-wise numeric comparison, and the
    result is "iOS <major>.<minor>" built from the first two components
    of [v] only. *)
Theorem latest_is_numerically_greatest (keys : list string) :
  (exists k, k ∈ keys /\ has_ios_prefix k = true) ->
  (forall k, k ∈ keys -> has_ios_prefix k = true ->
             exists v, Dotted.NewVersion (version_suffix k) = Ok v) ->
  exists v major minor rest,
    parsed_among keys v /\
    (forall v', parsed_among keys v' -> Dotted.Compare v' v <> Gt) /\
    Dotted.segments v = major :: minor :: rest /\
    getLatestIOSVersion keys
    = ("iOS " +:+ itoa major +:+ "." +:+ itoa minor, None).
Proof.
  intros (k0 & Hin0 & Hk0) Hparse.
  destruct (DottedLatest.latest_loop_greatest keys None Hparse)
    as (r & Hloop & _ & Hmax & Hfrom); [done|].
  destruct (Hparse k0 Hin0 Hk0) as [v0 Hv0].
  destruct (Hmax v0) as (v & -> & _); [by exists k0|].
  destruct (Hfrom v eq_refl) as [_ [?|Hv]]; [done|].
  pose proof Hv as (k & _ & _ & Hparsed).
  destruct (DottedParse.NewVersion_segments _ _ Hparsed)
    as [_ (major & minor & rest & Hsegs)].
  exists v, major, minor, rest. repeat split; try done.
  - intros v' Hv'. destruct (Hmax v' Hv') as (v1 & [= <-] & Hle). done.
  - unfold getLatestIOSVersion.
    change (@Version dotted_versions) with Dotted.t.
    rewrite Hloop.
    change (@Segments dotted_versions v) with (Dotted.segments v).
    by rewrite Hsegs.
Qed.

Lemma latest_is_numerically_greatest_witness :
  exists v major minor rest,
    parsed_among Sample.mixed_keys v /\
    (forall v', parsed_among Sample.mixed_keys v' -> Dotted.Compare v' v <> Gt) /\
    Dotted.segments v = major :: minor :: rest /\
    getLatestIOSVersion Sample.mixed_keys
    = ("iOS " +:+ itoa major +:+ "." +:+ itoa minor, None).
Proof.
  apply (latest_is_numerically_greatest Sample.mixed_keys).
  - exists "iOS 9.3". split; [by left | reflexivity].
  - intros k Hk Hp. unfold Sample.mixed_keys in Hk.
    repeat (apply elem_of_cons in Hk as [->|Hk]);
      [eexists; vm_compute; reflexivity
      | vm_compute in Hp; discriminate
      | eexists; vm_compute; reflexivity
      | by apply not_elem_of_nil in Hk].
Defined.

(** C7.  With any version library: if some key of the iOS family has a
    suffix that the parser rejects, resolution returns the parse error of
    the first such key in the order of the visit, whatever precedes or
    follows it; and keys outside the family do not change the result. *)
Theorem unparsable_ios_key_fails {lib : VersionLib}
    (keys : list string) (k : string) (e : error) :
  k ∈ keys -> has_ios_prefix k = true -> NewVersion (version_suffix k) = Err e ->
  (exists pre k0 post e0,
      keys = pre ++ k0 :: post /\
      (forall k', k' ∈ pre -> has_ios_prefix k' = true ->
                  exists v, NewVersion (version_suffix k') = Ok v) /\
      has_ios_prefix k0 = true /\
      NewVersion (version_suffix k0) = Err e0 /\
      getLatestIOSVersion keys
      = (EmptyString, Some (parse_error_message (version_suffix k0) e0)))
  /\ getLatestIOSVersion (filter (fun k => has_ios_prefix k = true) keys)
     = getLatestIOSVersion keys.
Proof.
  intros Hin Hk He. split.
  - destruct (first_failure keys k e Hin Hk He)
      as (pre & k0 & post & e0 & -> & Hpre & Hk0 & He0).
    exists pre, k0, post, e0. repeat split; try done.
    unfold getLatestIOSVersion.
    by rewrite (latest_loop_first_failure pre k0 post e0 None Hpre Hk0 He0).
  - unfold getLatestIOSVersion. by rewrite latest_loop_skip.
Qed.

Lemma unparsable_ios_key_fails_witness :
  (exists pre k0 post e0,
      Sample.broken_keys = pre ++ k0 :: post /\
      (forall k', k' ∈ pre -> has_ios_prefix k' = true ->
                  exists v, Dotted.NewVersion (version_suffix k') = Ok v) /\
      has_ios_prefix k0 = true /\
      Dotted.NewVersion (version_suffix k0) = Err e0 /\
      getLatestIOSVersion Sample.broken_keys
      = (EmptyString, Some (parse_error_message (version_suffix k0) e0)))
  /\ getLatestIOSVersion (filter (fun k => has_ios_prefix k = true) Sample.broken_keys)
     = getLatestIOSVersion Sample.broken_keys.
Proof.
  apply (unparsable_ios_key_fails (lib := dotted_versions)
           Sample.broken_keys "iOS beta" "Malformed version: beta").
  - unfold Sample.broken_keys. do 2 right. by left.
  - reflexivity.
  - vm_compute. reflexivity.
Defined.

Example unparsable_ios_key_message :
  getLatestIOSVersion Sample.broken_keys
  = (EmptyString,
     Some "Failed to parse version (beta), error: Malformed version: beta").
Proof. vm_compute. reflexivity. Qed.

(** C5.  Once the bucket key is fixed (the literal one, or the one that
    "latest" resolved to): if the map has no bucket under that key, or the
    bucket has no entry whose name is exactly the configured device name,
    [getSimulatorInfo] returns the zero simulator info together with an
    error; names that merely resemble the device name never match. *)
Theorem simulator_not_found {lib : VersionLib} (m : OsVersionSimulatorInfosMap)
    (keys : list string) (osVersion deviceName key : string) :
  resolve_os_version keys osVersion = Ok key ->
  device_not_found m key deviceName ->
  getSimulatorInfo (Ok m) keys osVersion deviceName
  = (InfoModel_zero, Some (not_found_message m key deviceName)).
Proof.
  intros Hkey Hnot. unfold getSimulatorInfo, not_found_message. rewrite Hkey.
  destruct Hnot as [->|(infos & -> & Hnone)]; [done|].
  by rewrite (proj2 (find_device_none infos deviceName) Hnone).
Qed.

Lemma simulator_not_found_witness :
  getSimulatorInfo (Ok Sample.twins) ["iOS 12.1"] "latest" "iPhone"
  = (InfoModel_zero, Some (not_found_message Sample.twins "iOS 12.1" "iPhone")).
Proof.
  apply (simulator_not_found (lib := dotted_versions)).
  - vm_compute. reflexivity.
  - right. eexists. split; [vm_compute; reflexivity|].
    repeat constructor; vm_compute; discriminate.
Defined.

Example simulator_not_found_no_bucket :
  getSimulatorInfo (Ok Sample.two_buckets) ["iOS 12.1"; "iOS 11.4"] "iOS 10.3" "iPhone 8"
  = (InfoModel_zero, Some "No simulators found for os version: iOS 10.3").
Proof. vm_compute. reflexivity. Qed.

(** C10.  When the bucket of the resolved key holds several entries named
    exactly as the configured device, [getSimulatorInfo] returns, without
    error, the first of them in the order of the bucket's list. *)
Theorem simulator_first_match {lib : VersionLib} (m : OsVersionSimulatorInfosMap)
    (keys : list string) (osVersion deviceName key : string)
    (pre post : list InfoModel) (info : InfoModel) :
  resolve_os_version keys osVersion = Ok key ->
  m !! key = Some (pre ++ info :: post) ->
  Name info = deviceName ->
  Forall (fun i => Name i <> deviceName) pre ->
  getSimulatorInfo (Ok m) keys osVersion deviceName = (info, None).
Proof.
  intros Hkey Hm Hname Hpre. unfold getSimulatorInfo. rewrite Hkey, Hm.
  by rewrite (find_device_first pre info post deviceName Hname Hpre).
Qed.

Lemma simulator_first_match_witness :
  getSimulatorInfo (Ok Sample.twins) ["iOS 12.1"] "iOS 12.1" "iPhone 8"
  = (Sample.device "iPhone 8" "A", None).
Proof.
  apply (simulator_first_match (lib := dotted_versions) Sample.twins ["iOS 12.1"]
           "iOS 12.1" "iPhone 8" "iOS 12.1"
           [Sample.device "iPhone 8 Plus" "P"] [Sample.device "iPhone 8" "B"]).
  - reflexivity.
  - vm_compute. reflexivity.
  - reflexivity.
  - repeat constructor. vm_compute. discriminate.
Defined.

(** * The result log *)

Section ScanFacts.

Lemma tokens_lines pieces :
  Forall (fun raw => Z.of_nat (String.length raw) < bufio.MaxScanTokenSize) pieces ->
  bufio.tokens pieces = bufio.lines_of pieces.
Proof.
  induction 1 as [|raw pieces Hraw _ IH]; [done|].
  cbn [bufio.tokens bufio.lines_of]. unfold bufio.fits.
  rewrite (proj2 (Z.ltb_lt _ _) Hraw), IH. by destruct pieces.
Qed.

Lemma tokens_prefix pieces :
  exists rest, bufio.lines_of pieces = bufio.tokens pieces ++ rest.
Proof.
  induction pieces as [|raw pieces [rest IH]]; [by exists []|].
  cbn [bufio.tokens bufio.lines_of]. destruct pieces as [|raw' pieces].
  - destruct (String.eqb raw EmptyString); [by exists []|].
    destruct (bufio.fits raw); [by exists [] | by eexists].
  - destruct (bufio.fits raw); [|by eexists].
    exists rest. by rewrite IH.
Qed.

Lemma adjacent_pair_app ls rest : adjacent_pair ls -> adjacent_pair (ls ++ rest).
Proof.
  intros (pre & f & m & post & -> & Hf & Hm).
  exists pre, f, m, (post ++ rest). by rewrite <- app_assoc.
Qed.

Lemma adjacent_pair_cons l ls : adjacent_pair ls -> adjacent_pair (l :: ls).
Proof.
  intros (pre & f & m & post & -> & Hf & Hm). by exists (l :: pre), f, m, post.
Qed.

Lemma message_not_failure m :
  is_message_line m -> String.eqb (strings.TrimSpace m) "<failure>" = false.
Proof.
  unfold is_message_line. intros Hm.
  destruct (String.eqb_spec (strings.TrimSpace m) "<failure>") as [Heq|]; [|done].
  rewrite Heq in Hm. vm_compute in Hm. discriminate.
Qed.

Lemma scan_no_pair ls st :
  ~ adjacent_pair ls ->
  (failureLineFound st = true ->
   match ls with [] => True | l :: _ => ~ is_message_line l end) ->
  lastFailureMessage (fold_left scan_step ls st) = lastFailureMessage st.
Proof.
  revert st. induction ls as [|l ls IH]; intros st Hno Hflag; [done|].
  cbn [fold_left]. rewrite IH.
  - unfold scan_step.
    destruct (String.eqb_spec (strings.TrimSpace l) "<failure>"); [done|].
    cbn [lastFailureMessage].
    destruct (failureLineFound st); [|done].
    destruct (strings.HasPrefix _ _) eqn:Hm; [|done].
    by destruct (Hflag eq_refl).
  - intros Hp. by apply Hno, adjacent_pair_cons.
  - unfold scan_step.
    destruct (String.eqb_spec (strings.TrimSpace l) "<failure>") as [Hf|]; [|done].
    intros _. destruct ls as [|m ls]; [done|].
    intros Hm. apply Hno. by exists [], l, m, ls.
Qed.

Lemma scan_last_pair pre f m post st :
  is_failure_marker f -> is_message_line m -> ~ adjacent_pair post ->
  lastFailureMessage (fold_left scan_step (pre ++ f :: m :: post) st)
  = strings.TrimSpace m.
Proof.
  intros Hf Hm Hpost. rewrite fold_left_app. cbn [fold_left].
  rewrite scan_no_pair; [|done|].
  - unfold scan_step at 1. rewrite (message_not_failure m Hm).
    cbn [lastFailureMessage]. unfold scan_step at 1.
    unfold is_failure_marker in Hf. rewrite Hf. cbn [String.eqb Ascii.eqb].
    cbn [failureLineFound]. unfold is_message_line in Hm. by rewrite Hm.
  - unfold scan_step at 1. by rewrite (message_not_failure m Hm).
Qed.

End ScanFacts.

Example parse_scenario :
  parseErrorFromResultLog
    ("<failure>" +:+ nl +:+ "<message>Assertion X failed</message>" +:+ nl)
  = ("<message>Assertion X failed</message>", None).
Proof. vm_compute. reflexivity. Qed.

Example parse_two_pairs :
  parseErrorFromResultLog SampleLog.two_pairs = ("<message>second</message>", None).
Proof. vm_compute. reflexivity. Qed.

Example long_line_result :
  parseErrorFromResultLog SampleLog.long_line = ("<message>first</message>", None).
Proof. vm_compute. reflexivity. Qed.

(** C3, at the failing input.  The text holds two adjacent
    failure-marker/message pairs with a line of 65536 bytes between
    them.  The scanner delivers the two lines before the long line and
    then stops; the loop ends there, the function does not ask the
    scanner why, and it returns the message of the first pair with no
    error.  So on this text the last pair of the document does not
    win. *)
Lemma long_line_hides_last_pair :
  bufio.scan SampleLog.long_line = ["<failure>"; "<message>first</message>"] /\
  length (bufio.lines SampleLog.long_line) = 5%nat /\
  parseErrorFromResultLog SampleLog.long_line = ("<message>first</message>", None) /\
  ~ last_pair_wins SampleLog.long_line.
Proof.
  split_and!.
  - vm_compute. reflexivity.
  - vm_compute. reflexivity.
  - exact long_line_result.
  - intros H.
    specialize (H [] "<failure>" "<message>first</message>"
                  [SampleLog.filler 65536]
                  "<failure>" "<message>second</message>" []).
    assert (parseErrorFromResultLog SampleLog.long_line
            = (strings.TrimSpace "<message>second</message>", None)) as Hlast.
    { apply H.
      - apply (bool_decide_unpack _). vm_compute. exact I.
      - vm_compute. reflexivity.
      - vm_compute. reflexivity.
      - vm_compute. reflexivity.
      - vm_compute. reflexivity.
      - intros (pre & f & m & post & Heq & _). by destruct pre. }
    rewrite long_line_result in Hlast. vm_compute in Hlast. discriminate.
Qed.

(** Where every line of the text is shorter than the scanner's buffer
    (65536 bytes) the loop sees the whole text: if the text contains two
    adjacent failure-marker/message pairs, the second being the last one
    of the text, [parseErrorFromResultLog] returns the trimmed message
    line of the second pair, and no error. *)
Theorem last_pair_wins_when_lines_fit (content : string) :
  every_line_fits content -> last_pair_wins content.
Proof.
  intros Hfit l0 f1 m1 l1 f2 m2 l2 Hlines _ _ Hf2 Hm2 Hl2.
  unfold parseErrorFromResultLog, bufio.scan.
  rewrite (tokens_lines _ Hfit). fold (bufio.lines content). rewrite Hlines.
  f_equal.
  replace (l0 ++ [f1; m1] ++ l1 ++ [f2; m2] ++ l2)
    with ((l0 ++ [f1; m1] ++ l1) ++ f2 :: m2 :: l2)
    by (by rewrite <- !app_assoc).
  by apply scan_last_pair.
Qed.

Lemma last_pair_wins_when_lines_fit_witness :
  parseErrorFromResultLog SampleLog.two_pairs
  = (strings.TrimSpace "  <message>second</message>", None).
Proof.
  apply (last_pair_wins_when_lines_fit SampleLog.two_pairs)
    with (l0 := []) (f1 := "<failure>") (m1 := "  <message>first</message>")
         (l1 := ["</failure>"]) (f2 := "<failure>") (l2 := []).
  - unfold every_line_fits. vm_compute. repeat constructor.
  - vm_compute. reflexivity.
  - vm_compute. reflexivity.
  - vm_compute. reflexivity.
  - vm_compute. reflexivity.
  - vm_compute. reflexivity.
  - intros (pre & f & m & post & Heq & _). by destruct pre.
Defined.

(** C6.  When no message line of the text directly follows a
    failure-marker line -- there is no pair at all, or every message line
    is separated from the failure marker before it by other lines --
    [parseErrorFromResultLog] returns the empty string and no error. *)
Theorem no_adjacent_pair_no_message (content : string) :
  ~ adjacent_pair (bufio.lines content) ->
  parseErrorFromResultLog content = (EmptyString, None).
Proof.
  intros Hno. unfold parseErrorFromResultLog. f_equal.
  rewrite scan_no_pair; [done| |done].
  intros Hp. apply Hno. unfold bufio.lines, bufio.scan in *.
  destruct (tokens_prefix (strings.split_byte (ascii_of_nat 10) content))
    as [rest ->].
  by apply adjacent_pair_app.
Qed.

Lemma no_adjacent_pair_no_message_witness :
  parseErrorFromResultLog SampleLog.separated = (EmptyString, None).
Proof.
  apply (no_adjacent_pair_no_message SampleLog.separated).
  intros (pre & f & m & post & Heq & Hf & Hm).
  vm_compute in Heq.
  destruct pre as [|a [|b [|c pre]]]; try discriminate Heq;
    injection Heq as; subst.
  - vm_compute in Hm. discriminate.
  - vm_compute in Hf. discriminate.
  - by destruct pre.
Defined.

(** * Runs of [main] *)

Section Triples.

Context {A B : Type}.

Lemma hoare_bind (P : World -> Prop) (m : M A) (f : A -> M B)
    (Q' : A -> World -> Prop) (Q : B -> World -> Prop) (E : Z -> World -> Prop) :
  hoare P m Q' E -> (forall a, hoare (Q' a) (f a) Q E) -> hoare P (m ≫= f) Q E.
Proof.
  intros Hm Hf w Hw. specialize (Hm w Hw).
  unfold mbind, M_bind. destruct (m w) as [[a|code] w']; [|done].
  by apply Hf.
Qed.

Lemma hoare_ret (P : World -> Prop) (a : A) (Q : A -> World -> Prop) E :
  (forall w, P w -> Q a w) -> hoare P (mret a) Q E.
Proof. intros H w Hw. by apply H. Qed.

Lemma hoare_ask (P : World -> Prop) (f : World -> A) (Q : A -> World -> Prop) E :
  (forall w, P w -> Q (f w) w) -> hoare P (ask f) Q E.
Proof. intros H w Hw. by apply H. Qed.

Lemma hoare_weaken (P : World -> Prop) (m : M A) (Q Q' : A -> World -> Prop) E :
  hoare P m Q E -> (forall a w, Q a w -> Q' a w) -> hoare P m Q' E.
Proof.
  intros Hm HQ w Hw. specialize (Hm w Hw).
  destruct (m w) as [[a|code] w']; [by apply HQ | done].
Qed.

End Triples.

Lemma hoare_emit (P : World -> Prop) (e : Event) (Q : unit -> World -> Prop) E :
  (forall w, P w -> Q tt (record e w)) -> hoare P (emit e) Q E.
Proof. intros H w Hw. by apply H. Qed.

Section Observers.

Lemma result_values_snoc h e :
  result_values (h ++ [e])
  = result_values h ++
    match e with
    | EvExport keyStr valueStr _ =>
        if String.eqb keyStr RESULT_KEY then [valueStr] else []
    | _ => []
    end.
Proof.
  unfold result_values. rewrite omap_app. f_equal.
  destruct e; try done. cbn. by destruct (String.eqb _ _).
Qed.

Lemma retained_snoc h e :
  retained (h ++ [e])
  = match e with EvReadResult _ content _ => content | _ => retained h end.
Proof. unfold retained. by rewrite fold_left_app. Qed.

Lemma carry_snoc h e :
  full_exports_carry_retained h ->
  (forall v err, e = EvExport FULL_RESULTS_KEY v err ->
                 v <> EmptyString /\ v = retained h) ->
  full_exports_carry_retained (h ++ [e]).
Proof.
  intros Hh He h1 v err h2 Heq.
  destruct h2 as [|y h2 _] using rev_ind.
  - apply app_inj_tail in Heq as [-> ->]. by eapply He.
  - rewrite app_comm_cons, app_assoc in Heq.
    apply app_inj_tail in Heq as [-> _]. by eapply Hh.
Qed.

Lemma carry_nil : full_exports_carry_retained [].
Proof. intros h1 v err h2 Heq. by destruct h1. Qed.

Lemma Running_silent rl w e : silent e -> Running rl w -> Running rl (record e w).
Proof.
  intros He (Hres & Hret & Hcarry). unfold Running, record. cbn [trace].
  rewrite result_values_snoc, retained_snoc, Hres.
  split_and!.
  - by destruct e.
  - by destruct e.
  - apply carry_snoc; [done|]. intros v err ->. done.
Qed.

Lemma Running_read rl w pth content err :
  Running rl w -> Running content (record (EvReadResult pth content err) w).
Proof.
  intros (Hres & Hret & Hcarry). unfold Running, record. cbn [trace].
  rewrite result_values_snoc, retained_snoc, Hres.
  split_and!; [done | done | by apply carry_snoc].
Qed.

Lemma Running_export_full rl w err :
  rl <> EmptyString -> Running rl w ->
  Running rl (record (EvExport FULL_RESULTS_KEY rl err) w).
Proof.
  intros Hrl (Hres & Hret & Hcarry). unfold Running, record. cbn [trace].
  rewrite result_values_snoc, retained_snoc, Hres.
  split_and!; [done | done |]. apply carry_snoc; [done|].
  intros v err' [= <- _]. by rewrite Hret.
Qed.

Lemma Fatal_silent w e : silent e -> Fatal 1 w -> Fatal 1 (record e w).
Proof.
  intros He (_ & Hres & Hcarry). unfold Fatal, record. cbn [trace].
  rewrite result_values_snoc, Hres. split_and!; [done | by destruct e |].
  apply carry_snoc; [done|]. intros v err ->. done.
Qed.

Lemma Succeeded_silent w e : silent e -> Succeeded w -> Succeeded (record e w).
Proof.
  intros He (Hres & Hcarry). unfold Succeeded, record. cbn [trace].
  rewrite result_values_snoc, Hres. split_and!.
  - by destruct e.
  - apply carry_snoc; [done|]. intros v err ->. done.
Qed.

Lemma export_result rl w value err :
  Running rl w ->
  result_values (trace (record (EvExport RESULT_KEY value err) w)) = [value] /\
  full_exports_carry_retained (trace (record (EvExport RESULT_KEY value err) w)) /\
  retained (trace (record (EvExport RESULT_KEY value err) w)) = rl.
Proof.
  intros (Hres & Hret & Hcarry). unfold record. cbn [trace].
  rewrite result_values_snoc, retained_snoc, Hres.
  split_and!; [done | | done].
  apply carry_snoc; [done|]. intros v err' [=].
Qed.

End Observers.

Create HintDb steady.

Section Steady.

Lemma steady_ret {A} (a : A) : steady (mret a).
Proof. intros rl. by apply hoare_ret. Qed.

Lemma steady_ask {A} (f : World -> A) : steady (ask f).
Proof. intros rl. by apply hoare_ask. Qed.

Lemma steady_emit (e : Event) : silent e -> steady (emit e).
Proof. intros He rl. apply hoare_emit. intros w. by apply Running_silent. Qed.

Lemma steady_bind {A B} (m : M A) (f : A -> M B) :
  steady m -> (forall a, steady (f a)) -> steady (m ≫= f).
Proof.
  intros Hm Hf rl. eapply hoare_bind; [apply Hm|]. intros a. apply Hf.
Qed.

Lemma steady_logf lv format args : steady (logf lv format args).
Proof. by apply steady_emit. Qed.

Lemma steady_Println : steady Println.
Proof. by apply steady_emit. Qed.

Lemma steady_Getenv key : steady (Getenv key).
Proof. apply steady_ask. Qed.

End Steady.

#[local] Hint Resolve steady_ret steady_ask steady_logf steady_Println
  steady_Getenv : steady.

(** Walks through a computation made of binds, branches and steady
    steps. *)
Ltac steady_step :=
  match goal with
  | |- steady (_ ≫= _) => apply steady_bind; [|intros ?]
  | |- steady (match ?x with _ => _ end) => destruct x
  | |- steady (if ?x then _ else _) => destruct x
  | |- steady (emit _) => apply steady_emit; exact I
  | |- steady _ => solve [auto with steady]
  end.

Ltac steady_auto := repeat steady_step.

Section ProgramFacts.

Context {lib : VersionLib} (collab : Collaborators).

Lemma steady_Setenv key value : steady (Setenv collab key value).
Proof.
  intros rl w Hw. unfold Setenv.
  apply (Running_silent rl w (EvSetenv key value (Setenv_answer collab w key value)))
    in Hw; [|done].
  by destruct (Setenv_answer collab w key value).
Qed.

Lemma hoare_failf {A} format v rl (Q : A -> World -> Prop) :
  hoare (Running rl) (failf collab format v) Q Fatal.
Proof.
  intros w Hw. unfold failf, exportEnvironmentWithEnvman, logf.
  cbv [mbind M_bind mret M_ret emit ask os_Exit].
  apply (Running_silent rl _ (EvLog LvError format v)) in Hw; [|done].
  set (w1 := record _ w) in *.
  change {| environ := environ w; trace := trace w ++ [EvLog LvError format v] |}
    with w1.
  destruct (export_result rl w1 "failed" (envman_add collab w1 RESULT_KEY "failed") Hw)
    as (Hres & Hcarry & _).
  set (w2 := record _ w1) in *.
  destruct (envman_add collab w1 RESULT_KEY "failed") as [err|].
  - apply (Fatal_silent w2 (EvLog LvWarn _ [RESULT_KEY; err])); done.
  - done.
Qed.

Lemma steady_failf {A} format v : steady (failf (A := A) collab format v).
Proof. intros rl. apply hoare_failf. Qed.

Lemma steady_fail_on err format : steady (fail_on collab err format).
Proof.
  unfold fail_on. destruct err; [apply steady_failf | apply steady_ret].
Qed.

Hint Resolve steady_Setenv steady_failf steady_fail_on : steady.

Lemma steady_createConfigsModelFromEnvs : steady createConfigsModelFromEnvs.
Proof. unfold createConfigsModelFromEnvs. steady_auto. Qed.

Lemma steady_print configs : steady (print configs).
Proof. unfold print. steady_auto. Qed.

Lemma steady_log_warnings warnings : steady (log_warnings warnings).
Proof. induction warnings; cbn [log_warnings]; steady_auto. Qed.

Lemma steady_callback c : steady (callback c).
Proof. unfold callback. steady_auto. Qed.

Lemma steady_callbacks cs : steady (callbacks cs).
Proof.
  induction cs; cbn [callbacks]; [apply steady_ret|].
  apply steady_bind; [apply steady_callback | done].
Qed.

Hint Resolve steady_createConfigsModelFromEnvs steady_print
  steady_log_warnings steady_callbacks : steady.

End ProgramFacts.

#[local] Hint Resolve steady_Setenv steady_failf steady_fail_on
  steady_createConfigsModelFromEnvs steady_print
  steady_log_warnings steady_callbacks : steady.

Lemma steady_hoare {A} (m : M A) rl :
  steady m -> hoare (Running rl) m (fun _ => Running rl) Fatal.
Proof. intros H. apply H. Qed.

Lemma hoare_read_result rl pth content err :
  hoare (Running rl) (emit (EvReadResult pth content err))
    (fun _ => Running content) Fatal.
Proof. apply hoare_emit. intros w. apply Running_read. Qed.

(** One step through a computation whose next action is steady or is
    the reading of the report. *)
Ltac hoare_step :=
  match goal with
  | |- hoare _ (_ ≫= _) _ _ =>
      first
        [ eapply hoare_bind; [apply steady_hoare; solve [steady_auto] | intros ?]
        | eapply hoare_bind; [apply hoare_read_result | intros ?] ]
  | |- hoare _ (let '(_, _) := ?e in _) _ _ => destruct e
  end.

Section LoopFacts.

Context {lib : VersionLib} (collab : Collaborators).

Lemma hoare_export_full_results rl :
  hoare (Running rl) (export_full_results collab rl) (fun _ => Running rl) Fatal.
Proof.
  intros w Hw. unfold export_full_results, is_empty.
  destruct (String.eqb_spec rl EmptyString) as [|Hrl]; [done|].
  unfold exportEnvironmentWithEnvman, logf.
  cbv [negb mbind M_bind mret M_ret emit ask].
  pose proof (Running_export_full rl w
                (envman_add collab w FULL_RESULTS_KEY rl) Hrl Hw) as Hw1.
  destruct (envman_add collab w FULL_RESULTS_KEY rl) as [err|]; [|done].
  by apply (Running_silent rl _ (EvLog LvWarn _ [FULL_RESULTS_KEY; err])).
Qed.

Lemma hoare_test_failed {A} rl err (Q : A -> World -> Prop) :
  hoare (Running rl) (test_failed collab rl err) Q Fatal.
Proof.
  unfold test_failed.
  eapply hoare_bind; [apply steady_hoare; solve [steady_auto] | intros ?].
  eapply hoare_bind; [apply hoare_export_full_results | intros ?].
  apply hoare_failf.
Qed.

Lemma hoare_referred_loop configs projectOutputMap nunitConsole
    testProjectName testProjectOutput names rl :
  hoare (Running rl)
    (referred_loop collab configs projectOutputMap nunitConsole
       testProjectName testProjectOutput names rl)
    (fun r => Running r.1) Fatal.
Proof.
  revert nunitConsole rl.
  induction names as [|projectName names IH]; intros nunitConsole rl;
    cbn [referred_loop].
  - by apply hoare_ret.
  - destruct (projectOutputMap !! projectName) as [projectOutput|]; [|apply IH].
    repeat hoare_step.
    match goal with
    | |- hoare _ (match ?e with _ => _ end) _ _ => destruct e
    end; [apply hoare_test_failed | apply IH].
Qed.

Lemma hoare_tests_loop configs projectOutputMap nunitConsole tests rl :
  hoare (Running rl)
    (tests_loop collab configs projectOutputMap nunitConsole tests rl)
    (fun r => Running r) Fatal.
Proof.
  revert nunitConsole rl.
  induction tests as [|[testProjectName testProjectOutput] tests IH];
    intros nunitConsole rl; cbn [tests_loop].
  - by apply hoare_ret.
  - destruct (ReferredProjectNames testProjectOutput) as [|name names] eqn:Hnames.
    + eapply hoare_bind; [apply steady_hoare; solve [steady_auto] | intros ?].
      apply IH.
    + eapply hoare_bind; [apply hoare_referred_loop | intros [rl' console']].
      apply IH.
Qed.

Lemma hoare_finish rl :
  hoare (Running rl) (finish collab rl) (fun _ => Succeeded) Fatal.
Proof.
  intros w Hw. unfold finish, exportEnvironmentWithEnvman, logf.
  cbv [mbind M_bind mret M_ret emit ask].
  generalize (envman_add collab w RESULT_KEY "succeeded"). intros answer.
  destruct (export_result rl w "succeeded" answer Hw) as (Hres & Hcarry & Hret).
  unfold record in Hres, Hcarry, Hret. cbn [trace] in Hres, Hcarry, Hret.
  assert (forall w2, result_values (trace w2) = ["succeeded"] ->
                     full_exports_carry_retained (trace w2) ->
                     retained (trace w2) = rl ->
                     match export_full_results collab rl w2 with
                     | (Ret _, w') => Succeeded w'
                     | (Exit code, w') => Fatal code w'
                     end) as Hfull.
  { intros w2 Hres2 Hcarry2 Hret2. unfold export_full_results, is_empty.
    destruct (String.eqb_spec rl EmptyString) as [|Hrl]; [done|].
    unfold exportEnvironmentWithEnvman, logf.
    cbv [negb mbind M_bind mret M_ret emit ask].
    assert (Succeeded (record (EvExport FULL_RESULTS_KEY rl
                                 (envman_add collab w2 FULL_RESULTS_KEY rl)) w2))
      as Hs.
    { unfold Succeeded, record. cbn [trace]. rewrite result_values_snoc, Hres2.
      split; [done|]. apply carry_snoc; [done|].
      intros v err' [= <- _]. by rewrite Hret2. }
    destruct (envman_add collab w2 FULL_RESULTS_KEY rl) as [err|]; [|done].
    by apply (Succeeded_silent _ (EvLog LvWarn _ [FULL_RESULTS_KEY; err])). }
  destruct answer as [err|].
  - apply Hfull; cbn [trace].
    + by rewrite result_values_snoc, Hres.
    + by apply carry_snoc.
    + by rewrite retained_snoc.
  - by apply Hfull.
Qed.

Lemma hoare_main :
  hoare (Running EmptyString) (main collab) (fun _ => Succeeded) Fatal.
Proof.
  unfold main.
  repeat hoare_step.
  eapply hoare_bind; [apply hoare_tests_loop | intros resultLog].
  apply hoare_finish.
Qed.

End LoopFacts.

Section Iteration.

Context {lib : VersionLib} (collab : Collaborators).

(** One iteration of the loop over the referred projects, for a project
    with a bundle path, when the environment variable can be set. *)
Lemma referred_loop_cons configs (pom : ProjectOutputMap) console t tout
    p rest rl w o :
  pom !! p = Some o ->
  find_app (Outputs o) <> EmptyString ->
  Setenv_answer collab w "APP_BUNDLE_PATH" (find_app (Outputs o)) = None ->
  let a := find_app (Outputs o) in
  let c := SetTestToRun (SetDLLPth console (Pth (Output tout))) (TestToRun configs) in
  let w1 := {| environ := <["APP_BUNDLE_PATH" := a]> (environ w);
               trace := trace w ++ EvSetenv "APP_BUNDLE_PATH" a None
                          :: announce t p a (PrintableCommand collab c) tout |} in
  let err := nunit_Run collab w1 c in
  let w2 := record (EvRun c (environ w1) err) w1 in
  let r := testResultLogContent collab (resultLogPth c) w2 in
  let w3 := record (EvReadResult (resultLogPth c) r.1 r.2) w2 in
  let w4 := match r.2 with
            | Some e =>
                record (EvLog LvWarn "Failed to read test result, error: %s" [e]) w3
            | None => w3
            end in
  referred_loop collab configs pom console t tout (p :: rest) rl w
  = match err with
    | Some e => test_failed collab r.1 e w4
    | None => referred_loop collab configs pom c t tout rest r.1 w4
    end.
Proof.
  intros Hp Ha Hset a c w1 err w2 r w3 w4.
  cbn [referred_loop]. rewrite Hp. fold a c.
  assert (is_empty a = false) as Hempty by (by apply String.eqb_neq).
  rewrite Hempty.
  cbv [mbind M_bind mret M_ret emit ask Println logf Setenv].
  fold a in Hset. rewrite Hset. cbn [environ trace].
  match goal with
  | |- context [nunit_Run collab ?w0 c] =>
      replace w0 with w1
        by (subst w1; unfold announce; f_equal; rewrite <- !app_assoc; reflexivity)
  end.
  fold err.
  match goal with
  | |- context [testResultLogContent collab _ ?w0] =>
      replace w0 with w2
        by (subst w2 w1; unfold record, announce; cbn [environ trace];
            f_equal; rewrite <- !app_assoc; reflexivity)
  end.
  fold r. subst w4 w3. destruct r as [testLog [readErr|]]; cbn [fst snd];
    by destruct err.
Qed.

(** What [failf] does: the error line, the export of "failed", a
    warning if the export failed, and exit status 1. *)
Lemma failf_eq {A} format v w :
  failf (A := A) collab format v w = (Exit 1, after_failf collab format v w).
Proof.
  unfold failf, after_failf, exportEnvironmentWithEnvman, logf, record.
  cbv [mbind M_bind mret M_ret emit ask os_Exit]. cbn [environ trace].
  by destruct (envman_add collab _ RESULT_KEY "failed").
Qed.

Lemma after_failf_trace format v w :
  exists h,
    trace (after_failf collab format v w) = trace w ++ EvLog LvError format v :: h
    /\ invocations h = []
    /\ environ (after_failf collab format v w) = environ w.
Proof.
  unfold after_failf, record. cbn [environ trace].
  destruct (envman_add collab _ RESULT_KEY "failed") as [err|];
    cbn [environ trace]; rewrite <- ?app_assoc; cbn [app];
    eexists; split_and!; reflexivity.
Qed.

(** A project without bundle path ends the run. *)
Lemma referred_loop_no_app configs (pom : ProjectOutputMap) console t tout
    p rest rl w o :
  pom !! p = Some o ->
  find_app (Outputs o) = EmptyString ->
  referred_loop collab configs pom console t tout (p :: rest) rl w
  = (Exit 1, after_failf collab "No app generated for project: %s" [p] w).
Proof.
  intros Hp Ha. cbn [referred_loop]. rewrite Hp, Ha.
  cbv [is_empty String.eqb mbind M_bind]. by rewrite failf_eq.
Qed.

Lemma logf_adds lv format args : adds_no_invocation (logf lv format args).
Proof. intros w. by exists [EvLog lv format args]. Qed.

Lemma mret_adds : adds_no_invocation (mret tt).
Proof.
  intros w. exists []. rewrite app_nil_r. split; [|done].
  by destruct w.
Qed.

Lemma export_full_results_adds resultLog :
  adds_no_invocation (export_full_results collab resultLog).
Proof.
  intros w. unfold export_full_results.
  destruct (negb (is_empty resultLog)); [|apply mret_adds].
  unfold exportEnvironmentWithEnvman, logf.
  cbv [mbind M_bind mret M_ret emit ask]. cbn [environ trace].
  destruct (envman_add collab w FULL_RESULTS_KEY resultLog) as [err|];
    cbn [environ trace]; rewrite <- ?app_assoc; cbn [app];
    eexists; split; reflexivity.
Qed.

(** What the failure of a test does: it ends the run through [failf],
    without a further invocation. *)
Lemma test_failed_trace {A} resultLog err w :
  exists h w',
    test_failed (A := A) collab resultLog err w = (Exit 1, w')
    /\ trace w' = trace w ++ h /\ environ w' = environ w
    /\ invocations h = []
    /\ EvLog LvError "Test failed, error: %s" [err] ∈ h.
Proof.
  unfold test_failed.
  assert (adds_no_invocation
            (match parseErrorFromResultLog resultLog with
             | (_, Some perr) =>
                 logf LvWarn
                   "Failed to parse error message from result log, error: %s" [perr]
             | (errorMsg, None) =>
                 if negb (is_empty errorMsg) then logf LvError "%s" [errorMsg]
                 else mret tt
             end)) as Hlog.
  { destruct (parseErrorFromResultLog resultLog) as [errorMsg [perr|]];
      [apply logf_adds|].
    destruct (negb (is_empty errorMsg)); [apply logf_adds | apply mret_adds]. }
  destruct (Hlog w) as (h1 & Heq1 & Hinv1).
  cbv [mbind M_bind]. rewrite Heq1.
  destruct (export_full_results_adds resultLog
              {| environ := environ w; trace := trace w ++ h1 |})
    as (h2 & Heq2 & Hinv2).
  rewrite Heq2, failf_eq. cbn [environ trace].
  match goal with
  | |- context [after_failf collab ?f ?v ?w0] =>
      destruct (after_failf_trace f v w0) as (h3 & Htrace & Hinv3 & Henv)
  end.
  cbn [environ trace] in Htrace, Henv.
  exists (h1 ++ h2 ++ EvLog LvError "Test failed, error: %s" [err] :: h3).
  eexists. split_and!; [reflexivity | | exact Henv | |].
  - rewrite Htrace. by rewrite <- !app_assoc.
  - unfold invocations in *. rewrite !omap_app, Hinv1, Hinv2. cbn.
    exact Hinv3.
  - set_solver.
Qed.

End Iteration.

Section Growth.

Lemma grows_ret {A} (a : A) : grows (mret a).
Proof. intros w. exists []. by rewrite app_nil_r. Qed.

Lemma grows_ask {A} (f : World -> A) : grows (ask f).
Proof. intros w. exists []. by rewrite app_nil_r. Qed.

Lemma grows_emit e : grows (emit e).
Proof. intros w. by exists [e]. Qed.

Lemma grows_bind {A B} (m : M A) (f : A -> M B) :
  grows m -> (forall a, grows (f a)) -> grows (m ≫= f).
Proof.
  intros Hm Hf w. destruct (Hm w) as [h1 Hh1].
  unfold mbind, M_bind. destruct (m w) as [[a|code] w1]; cbn [snd] in *.
  - destruct (Hf a w1) as [h2 Hh2]. exists (h1 ++ h2).
    by rewrite Hh2, Hh1, app_assoc.
  - by exists h1.
Qed.

End Growth.

(** Walks through a computation made of binds, branches and steps that
    only add to the trace. *)
Ltac grows_step :=
  match goal with
  | |- grows (_ ≫= _) => apply grows_bind; [|intros ?]
  | |- grows (match ?x with _ => _ end) => destruct x
  | |- grows (if ?x then _ else _) => destruct x
  | |- grows (logf _ _ _) => apply grows_emit
  | |- grows Println => apply grows_emit
  | |- grows (emit _) => apply grows_emit
  | |- grows (ask _) => apply grows_ask
  | |- grows (mret _) => apply grows_ret
  end.

Section ProgramGrowth.

Context {lib : VersionLib} (collab : Collaborators).

Lemma grows_Setenv key value : grows (Setenv collab key value).
Proof. intros w. by eexists. Qed.

Lemma grows_failf {A} format v : grows (failf (A := A) collab format v).
Proof.
  intros w. rewrite failf_eq. cbn [snd].
  destruct (after_failf_trace collab format v w) as (h & -> & _). by eexists.
Qed.

Lemma grows_exportEnvironmentWithEnvman keyStr valueStr :
  grows (exportEnvironmentWithEnvman collab keyStr valueStr).
Proof. unfold exportEnvironmentWithEnvman. repeat grows_step. Qed.

Lemma grows_test_failed {A} resultLog err :
  grows (test_failed (A := A) collab resultLog err).
Proof.
  intros w.
  destruct (test_failed_trace (A := A) collab resultLog err w)
    as (h & w' & -> & Htrace & _).
  by exists h.
Qed.

Lemma grows_referred_loop configs (pom : ProjectOutputMap) console t tout names rl :
  grows (referred_loop collab configs pom console t tout names rl).
Proof.
  revert console rl. induction names as [|p names IH]; intros console rl;
    cbn [referred_loop]; [apply grows_ret|].
  destruct (pom !! p); [|apply IH].
  repeat match goal with
    | |- grows (referred_loop _ _ _ _ _ _ names _) => apply IH
    | |- grows (failf _ _ _) => apply grows_failf
    | |- grows (Setenv _ _ _) => apply grows_Setenv
    | |- grows (test_failed _ _ _) => apply grows_test_failed
    | |- _ => grows_step
    end.
Qed.

End ProgramGrowth.

(** * The run as a whole *)

(** C4.  Every run of the program ends in one of two ways: [main]
    returns (exit status 0) having exported the result key exactly once,
    with the value "succeeded"; or the process exits with status 1 having
    exported the result key exactly once, with the value "failed".  The
    export is the call of [envman]; a failure of that call is only
    logged. *)
Theorem result_token_on_every_path {lib : VersionLib}
    (collab : Collaborators) (environ0 : gmap string string) :
  ((run collab environ0).1 = 0 /\
   result_values (trace (run collab environ0).2) = ["succeeded"])
  \/ ((run collab environ0).1 = 1 /\
      result_values (trace (run collab environ0).2) = ["failed"]).
Proof.
  unfold run.
  pose proof (hoare_main collab {| environ := environ0; trace := [] |}) as H.
  destruct (main collab _) as [[[]|code] w].
  - left. split; [done|]. apply H. split_and!; [done | done | apply carry_nil].
  - right. destruct H as (-> & Hres & _);
      [split_and!; [done | done | apply carry_nil] | done].
Qed.

(** C8.  In every run, each export of the full-results key carries a
    non-empty value, which is the result log retained at that moment (the
    content delivered by the latest reading of the report file): with an
    empty retained log nothing is exported under that key, on the failure
    path and at the end of the run alike. *)
Theorem full_results_exported_only_when_non_empty {lib : VersionLib}
    (collab : Collaborators) (environ0 : gmap string string)
    (h1 h2 : list Event) (v : string) (err : option error) :
  trace (run collab environ0).2 = h1 ++ EvExport FULL_RESULTS_KEY v err :: h2 ->
  v <> EmptyString /\ v = retained h1.
Proof.
  revert h1 v err h2.
  change (full_exports_carry_retained (trace (run collab environ0).2)).
  unfold run.
  pose proof (hoare_main collab {| environ := environ0; trace := [] |}) as H.
  destruct (main collab _) as [[[]|code] w]; cbn [snd];
    apply H; (split_and!; [done | done | apply carry_nil]).
Qed.

Example exports_on_test_failure :
  let r := run (SampleRun.collaborators ["App1"] (Some "exit status 1")
                  SampleRun.failing_report) SampleRun.environment in
  r.1 = 1 /\
  SampleRun.exports (trace r.2)
  = [(FULL_RESULTS_KEY, SampleRun.failing_report); (RESULT_KEY, "failed")].
Proof. vm_compute. done. Qed.

Example exports_at_end_of_run :
  let r := run (SampleRun.collaborators ["App1"] None SampleRun.failing_report)
             SampleRun.environment in
  r.1 = 0 /\
  SampleRun.exports (trace r.2)
  = [(RESULT_KEY, "succeeded"); (FULL_RESULTS_KEY, SampleRun.failing_report)].
Proof. vm_compute. done. Qed.

Example no_export_of_empty_log :
  let failed := run (SampleRun.collaborators ["App1"] (Some "exit status 1")
                       EmptyString) SampleRun.environment in
  let passed := run (SampleRun.collaborators ["App1"] None EmptyString)
                  SampleRun.environment in
  SampleRun.exports (trace failed.2) = [(RESULT_KEY, "failed")] /\
  SampleRun.exports (trace passed.2) = [(RESULT_KEY, "succeeded")].
Proof. vm_compute. done. Qed.

Lemma full_results_exported_only_when_non_empty_witness :
  let t := trace (run (SampleRun.collaborators ["App1"] (Some "exit status 1")
                         SampleRun.failing_report) SampleRun.environment).2 in
  t = take 30 t ++ EvExport FULL_RESULTS_KEY SampleRun.failing_report None :: drop 31 t /\
  SampleRun.failing_report <> EmptyString /\
  SampleRun.failing_report = retained (take 30 t).
Proof.
  intros t.
  assert (t = take 30 t
              ++ EvExport FULL_RESULTS_KEY SampleRun.failing_report None :: drop 31 t)
    as Hsplit by (vm_compute; reflexivity).
  split; [exact Hsplit|].
  exact (full_results_exported_only_when_non_empty (lib := dotted_versions)
           _ _ _ _ _ _ Hsplit).
Defined.

(** * Pairing a test project with application bundles *)

Section FindApp.

Lemma find_app_from_none appPth outputs :
  no_app_output outputs -> find_app_from appPth outputs = appPth.
Proof.
  induction 1 as [|output outputs Hout _ IH]; cbn [find_app_from]; [done|].
  by rewrite (bool_decide_eq_false_2 _ Hout).
Qed.

Lemma find_app_from_last appPth pre output post :
  OutputType output = OutputTypeAPP -> no_app_output post ->
  find_app_from appPth (pre ++ output :: post) = Pth output.
Proof.
  intros Happ Hpost. revert appPth.
  induction pre as [|o pre IH]; intros appPth; cbn [app find_app_from].
  - rewrite (bool_decide_eq_true_2 _ Happ). by apply find_app_from_none.
  - apply IH.
Qed.

End FindApp.

Example run_first_then_abort :
  let r := run (SampleRun.collaborators ["App1"; "Lib2"] None SampleRun.failing_report)
             SampleRun.environment in
  r.1 = 1 /\ SampleRun.invoked (trace r.2) = ["/build/UITests.dll"]
  /\ SampleRun.exports (trace r.2) = [(RESULT_KEY, "failed")].
Proof. vm_compute. done. Qed.

(** C1, as stated: in this run the test project refers to [App1], which
    has an application bundle, and then to [Lib2], which has none; the run
    aborts, but the test runner has been invoked. *)
Lemma first_reference_was_invoked :
  ~ aborts_before_any_invocation
      (SampleRun.collaborators ["App1"; "Lib2"] None SampleRun.failing_report)
      SampleRun.environment.
Proof.
  intros [_ H]. apply (f_equal length) in H. vm_compute in H. discriminate.
Qed.

(** C1, amended.  For a test project that refers to two projects of the
    output map, the first with a bundle path and the second without any
    output tagged as an application bundle: the first reference is
    processed completely before the second is examined.  Its bundle path
    is put in the environment and the test runner is invoked once, for
    it; the run then aborts with exit status 1 -- at the bundle check of
    the second reference when the invocation succeeded, on the test
    failure otherwise -- and the test runner is not invoked again. *)
Theorem first_reference_runs_before_second_is_checked {lib : VersionLib}
    (collab : Collaborators) (configs : ConfigsModel) (pom : ProjectOutputMap)
    (console : NunitConsole) (t : string) (tout : TestProjectOutputModel)
    (p1 p2 : string) (o1 o2 : ProjectOutputModel) (rl : string) (w : World) :
  ReferredProjectNames tout = [p1; p2] ->
  pom !! p1 = Some o1 -> find_app (Outputs o1) <> EmptyString ->
  pom !! p2 = Some o2 -> no_app_output (Outputs o2) ->
  Setenv_answer collab w "APP_BUNDLE_PATH" (find_app (Outputs o1)) = None ->
  exists c env err h w',
    tests_loop collab configs pom console [(t, tout)] rl w = (Exit 1, w') /\
    trace w'
    = trace w
      ++ (EvSetenv "APP_BUNDLE_PATH" (find_app (Outputs o1)) None
          :: announce t p1 (find_app (Outputs o1)) (PrintableCommand collab c) tout)
      ++ EvRun c env err :: h /\
    dllPth c = Pth (Output tout) /\
    env !! "APP_BUNDLE_PATH" = Some (find_app (Outputs o1)) /\
    invocations h = [] /\
    match err with
    | None => EvLog LvError "No app generated for project: %s" [p2] ∈ h
    | Some e => EvLog LvError "Test failed, error: %s" [e] ∈ h
    end.
Proof.
  intros Hrefs Hp1 Ha1 Hp2 Ho2 Hset.
  cbn [tests_loop]. rewrite Hrefs. cbv [mbind M_bind].
  rewrite (referred_loop_cons collab configs pom console t tout p1 [p2] rl w o1
             Hp1 Ha1 Hset).
  set (a := find_app (Outputs o1)).
  set (c := SetTestToRun (SetDLLPth console (Pth (Output tout))) (TestToRun configs)).
  set (w1 := {| environ := <["APP_BUNDLE_PATH" := a]> (environ w); trace := _ |}).
  set (err := nunit_Run collab w1 c).
  set (w2 := record (EvRun c (environ w1) err) w1).
  set (r := testResultLogContent collab (resultLogPth c) w2).
  set (w3 := record (EvReadResult (resultLogPth c) r.1 r.2) w2).
  set (w4 := match r.2 with Some e => record _ w3 | None => w3 end).
  assert (exists h4, trace w4
                     = trace w ++ (EvSetenv "APP_BUNDLE_PATH" a None
                                   :: announce t p1 a (PrintableCommand collab c) tout)
                       ++ EvRun c (environ w1) err :: h4
                     /\ invocations h4 = []) as (h4 & Hw4 & Hh4).
  { subst w4 w3 w2 w1. unfold record. destruct r.2; cbn [environ trace];
      rewrite <- ?app_assoc; cbn [app]; eexists; split; reflexivity. }
  exists c, (environ w1), err.
  destruct err as [e|].
  - destruct (test_failed_trace (A := string * NunitConsole) collab r.1 e w4)
      as (h & w' & -> & Htrace & _ & Hinv & Hlog).
    exists (h4 ++ h), w'. split_and!; try done.
    + rewrite Htrace, Hw4. by rewrite <- !app_assoc.
    + subst w1. cbn [environ]. apply lookup_insert_eq.
    + unfold invocations in *. by rewrite omap_app, Hh4, Hinv.
    + set_solver.
  - assert (find_app (Outputs o2) = EmptyString) as Ha2
      by (by apply find_app_from_none).
    rewrite (referred_loop_no_app collab configs pom c t tout p2 [] r.1 w4 o2 Hp2 Ha2).
    destruct (after_failf_trace collab "No app generated for project: %s" [p2] w4)
      as (h & Htrace & Hinv & _).
    exists (h4 ++ EvLog LvError "No app generated for project: %s" [p2] :: h).
    eexists. split_and!; try done.
    + rewrite Htrace, Hw4. by rewrite <- !app_assoc.
    + subst w1. cbn [environ]. apply lookup_insert_eq.
    + unfold invocations in *. rewrite omap_app, Hh4. cbn. exact Hinv.
    + set_solver.
Qed.

Lemma first_reference_runs_before_second_is_checked_witness :
  let collab := SampleRun.collaborators ["App1"; "Lib2"] None SampleRun.failing_report in
  let tout := SampleRun.test_project ["App1"; "Lib2"] in
  exists c env err h w',
    tests_loop collab SampleRun.configs SampleRun.outputs SampleRun.console
      [("UITests", tout)] EmptyString SampleRun.start = (Exit 1, w') /\
    trace w'
    = trace SampleRun.start
      ++ (EvSetenv "APP_BUNDLE_PATH" (find_app [SampleRun.app1]) None
          :: announce "UITests" "App1" (find_app [SampleRun.app1])
               (PrintableCommand collab c) tout)
      ++ EvRun c env err :: h /\
    dllPth c = Pth (Output tout) /\
    env !! "APP_BUNDLE_PATH" = Some (find_app [SampleRun.app1]) /\
    invocations h = [] /\
    match err with
    | None => EvLog LvError "No app generated for project: %s" ["Lib2"] ∈ h
    | Some e => EvLog LvError "Test failed, error: %s" [e] ∈ h
    end.
Proof.
  intros collab tout.
  apply (first_reference_runs_before_second_is_checked (lib := dotted_versions)
           collab SampleRun.configs SampleRun.outputs SampleRun.console
           "UITests" tout "App1" "Lib2"
           {| Outputs := [SampleRun.app1] |} {| Outputs := [SampleRun.lib2] |}).
  - reflexivity.
  - vm_compute. reflexivity.
  - vm_compute. discriminate.
  - vm_compute. reflexivity.
  - repeat constructor. vm_compute. discriminate.
  - reflexivity.
Defined.

Section LastApp.

Context {lib : VersionLib} (collab : Collaborators).

(** One iteration, with the trace it leaves before the loop goes on. *)
Lemma referred_loop_cons_trace configs (pom : ProjectOutputMap) console t tout
    p rest rl w o :
  pom !! p = Some o ->
  find_app (Outputs o) <> EmptyString ->
  Setenv_answer collab w "APP_BUNDLE_PATH" (find_app (Outputs o)) = None ->
  exists c env err h,
    trace (referred_loop collab configs pom console t tout (p :: rest) rl w).2
    = trace w
      ++ (EvSetenv "APP_BUNDLE_PATH" (find_app (Outputs o)) None
          :: announce t p (find_app (Outputs o)) (PrintableCommand collab c) tout)
      ++ EvRun c env err :: h /\
    dllPth c = Pth (Output tout) /\
    env !! "APP_BUNDLE_PATH" = Some (find_app (Outputs o)).
Proof.
  intros Hp Ha Hset.
  rewrite (referred_loop_cons collab configs pom console t tout p rest rl w o
             Hp Ha Hset).
  set (a := find_app (Outputs o)).
  set (c := SetTestToRun (SetDLLPth console (Pth (Output tout))) (TestToRun configs)).
  set (w1 := {| environ := <["APP_BUNDLE_PATH" := a]> (environ w); trace := _ |}).
  set (err := nunit_Run collab w1 c).
  set (w2 := record (EvRun c (environ w1) err) w1).
  set (r := testResultLogContent collab (resultLogPth c) w2).
  set (w3 := record (EvReadResult (resultLogPth c) r.1 r.2) w2).
  set (w4 := match r.2 with Some e => record _ w3 | None => w3 end).
  assert (exists h4, trace w4
                     = trace w ++ (EvSetenv "APP_BUNDLE_PATH" a None
                                   :: announce t p a (PrintableCommand collab c) tout)
                       ++ EvRun c (environ w1) err :: h4) as (h4 & Hw4).
  { subst w4 w3 w2 w1. unfold record. destruct r.2; cbn [environ trace];
      rewrite <- ?app_assoc; cbn [app]; eexists; reflexivity. }
  assert (exists h, trace (match err with
                           | Some e => test_failed collab r.1 e w4
                           | None => referred_loop collab configs pom c t tout rest r.1 w4
                           end).2 = trace w4 ++ h) as (h & Hh).
  { destruct err as [e|]; [apply grows_test_failed | apply grows_referred_loop]. }
  exists c, (environ w1), err, (h4 ++ h). split_and!.
  - rewrite Hh, Hw4. by rewrite <- !app_assoc.
  - done.
  - subst w1. cbn [environ]. apply lookup_insert_eq.
Qed.

End LastApp.

Example last_of_two_bundles :
  find_app [SampleRun.app_old; SampleRun.lib2; SampleRun.app1; SampleRun.uitests]
  = "/build/App1.app".
Proof. reflexivity. Qed.

(** C9.  When the output list of a referred project (one that the output
    map knows) has several entries tagged as application bundles, the
    bundle path is that of the last such entry of the list.  If that path
    is empty, the run aborts with exit status 1 on "No app generated"
    without invoking the test runner for this reference; otherwise (the
    environment variable being settable) that path is the value of
    APP_BUNDLE_PATH in the environment of the invocation made for this
    reference. *)
Theorem last_app_output_is_used {lib : VersionLib}
    (collab : Collaborators) (configs : ConfigsModel) (pom : ProjectOutputMap)
    (console : NunitConsole) (t : string) (tout : TestProjectOutputModel)
    (p : string) (rest : list string) (rl : string) (w : World)
    (po : ProjectOutputModel) (pre post : list OutputModel) (o : OutputModel) :
  pom !! p = Some po ->
  Outputs po = pre ++ o :: post ->
  OutputType o = OutputTypeAPP ->
  no_app_output post ->
  find_app (Outputs po) = Pth o /\
  (Pth o = EmptyString ->
   exists h w',
     referred_loop collab configs pom console t tout (p :: rest) rl w = (Exit 1, w') /\
     trace w' = trace w ++ EvLog LvError "No app generated for project: %s" [p] :: h /\
     invocations h = []) /\
  (Pth o <> EmptyString ->
   Setenv_answer collab w "APP_BUNDLE_PATH" (Pth o) = None ->
   exists c env err h,
     trace (referred_loop collab configs pom console t tout (p :: rest) rl w).2
     = trace w
       ++ (EvSetenv "APP_BUNDLE_PATH" (Pth o) None
           :: announce t p (Pth o) (PrintableCommand collab c) tout)
       ++ EvRun c env err :: h /\
     dllPth c = Pth (Output tout) /\
     env !! "APP_BUNDLE_PATH" = Some (Pth o)).
Proof.
  intros Hp Houts Happ Hpost.
  assert (find_app (Outputs po) = Pth o) as Hfind.
  { unfold find_app. rewrite Houts. by apply find_app_from_last. }
  split_and!; [done | |].
  - intros Hempty.
    rewrite (referred_loop_no_app collab configs pom console t tout p rest rl w po Hp)
      by (by rewrite Hfind).
    destruct (after_failf_trace collab "No app generated for project: %s" [p] w)
      as (h & Htrace & Hinv & _).
    by exists h, (after_failf collab "No app generated for project: %s" [p] w).
  - intros Hne Hset. rewrite <- Hfind in *.
    by apply referred_loop_cons_trace.
Qed.

Lemma last_app_output_is_used_witness :
  let collab := SampleRun.collaborators ["Twice"] None SampleRun.failing_report in
  let tout := SampleRun.test_project ["Twice"] in
  find_app [SampleRun.app_old; SampleRun.lib2; SampleRun.app1; SampleRun.uitests]
  = "/build/App1.app" /\
  ("/build/App1.app" = EmptyString ->
   exists h w',
     referred_loop collab SampleRun.configs SampleRun.more_outputs SampleRun.console
       "UITests" tout ["Twice"] EmptyString SampleRun.start = (Exit 1, w') /\
     trace w' = trace SampleRun.start
                ++ EvLog LvError "No app generated for project: %s" ["Twice"] :: h /\
     invocations h = []) /\
  ("/build/App1.app" <> EmptyString ->
   Setenv_answer collab SampleRun.start "APP_BUNDLE_PATH" "/build/App1.app" = None ->
   exists c env err h,
     trace (referred_loop collab SampleRun.configs SampleRun.more_outputs
              SampleRun.console "UITests" tout ["Twice"] EmptyString SampleRun.start).2
     = trace SampleRun.start
       ++ (EvSetenv "APP_BUNDLE_PATH" "/build/App1.app" None
           :: announce "UITests" "Twice" "/build/App1.app"
                (PrintableCommand collab c) tout)
       ++ EvRun c env err :: h /\
     dllPth c = Pth (Output tout) /\
     env !! "APP_BUNDLE_PATH" = Some "/build/App1.app").
Proof.
  intros collab tout.
  apply (last_app_output_is_used (lib := dotted_versions) collab SampleRun.configs
           SampleRun.more_outputs SampleRun.console "UITests" tout "Twice" []
           EmptyString SampleRun.start
           {| Outputs := [SampleRun.app_old; SampleRun.lib2; SampleRun.app1;
                          SampleRun.uitests] |}
           [SampleRun.app_old; SampleRun.lib2] [SampleRun.uitests] SampleRun.app1).
  - vm_compute. reflexivity.
  - reflexivity.
  - reflexivity.
  - repeat constructor. vm_compute. discriminate.
Defined.

Example blank_bundle_path_aborts :
  let r := referred_loop
             (SampleRun.collaborators ["Blank"] None SampleRun.failing_report)
             SampleRun.configs SampleRun.more_outputs SampleRun.console
             "UITests" (SampleRun.test_project ["Blank"]) ["Blank"] EmptyString
             SampleRun.start in
  r.1 = Exit 1 /\ invocations (trace r.2) = []
  /\ SampleRun.exports (trace r.2) = [(RESULT_KEY, "failed")].
Proof. vm_compute. done. Qed.

(** * Further properties of the simulator selection *)

Section LatestEdge.

Context {lib : VersionLib}.

Lemma latest_loop_no_ios keys acc :
  Forall (fun k => has_ios_prefix k = false) keys -> latest_loop keys acc = Ok acc.
Proof.
  induction 1 as [|k keys Hk _ IH]; cbn [latest_loop]; [done|].
  fold (has_ios_prefix k). by rewrite Hk.
Qed.

Lemma no_ios_key_no_latest_aux keys :
  Forall (fun k => has_ios_prefix k = false) keys ->
  getLatestIOSVersion keys
  = (EmptyString, Some "Failed to determin latest iOS simulator version").
Proof.
  intros Hkeys. unfold getLatestIOSVersion. by rewrite latest_loop_no_ios.
Qed.

End LatestEdge.

(** X1.  With any version library: when no key of the map carries the
    iOS prefix (in particular when the map is empty), resolving "latest"
    fails with the error of line 119 and the empty string. *)
Theorem no_ios_key_no_latest {lib : VersionLib} (keys : list string) :
  Forall (fun k => has_ios_prefix k = false) keys ->
  getLatestIOSVersion keys
  = (EmptyString, Some "Failed to determin latest iOS simulator version").
Proof.
  intros Hkeys. unfold getLatestIOSVersion. by rewrite latest_loop_no_ios.
Qed.

Lemma no_ios_key_no_latest_witness :
  getLatestIOSVersion SampleMore.foreign_keys
  = (EmptyString, Some "Failed to determin latest iOS simulator version").
Proof.
  apply (no_ios_key_no_latest (lib := dotted_versions)).
  repeat constructor.
Defined.

Section LatestOrder.

Lemma mutual_below_heads x y a x' y' b :
  Dotted.compare_segments (x :: y :: a) (x' :: y' :: b) <> Gt ->
  Dotted.compare_segments (x' :: y' :: b) (x :: y :: a) <> Gt ->
  x = x' /\ y = y'.
Proof.
  cbn [Dotted.compare_segments]. intros H1 H2.
  destruct (Z.compare_spec x x') as [->| |]; [| |done].
  - rewrite Z.compare_refl in H2.
    destruct (Z.compare_spec y y') as [->| |]; [done | | done].
    by replace (y' ?= y) with Gt in H2 by (symmetry; apply Z.compare_gt_iff; lia).
  - by replace (x' ?= x) with Gt in H2 by (symmetry; apply Z.compare_gt_iff; lia).
Qed.

(** The result of [getLatestIOSVersion] on keys that all parse: the first
    two components of a greatest parsed version. *)
Lemma latest_result keys :
  (exists k, k ∈ keys /\ has_ios_prefix k = true) ->
  (forall k, k ∈ keys -> has_ios_prefix k = true ->
             exists v, Dotted.NewVersion (version_suffix k) = Ok v) ->
  exists v major minor rest,
    parsed_among keys v /\
    (forall v', parsed_among keys v' -> Dotted.Compare v' v <> Gt) /\
    Dotted.segments v = major :: minor :: rest /\
    getLatestIOSVersion keys
    = ("iOS " +:+ itoa major +:+ "." +:+ itoa minor, None).
Proof.
  intros (k0 & Hin0 & Hk0) Hparse.
  destruct (DottedLatest.latest_loop_greatest keys None Hparse)
    as (r & Hloop & _ & Hmax & Hfrom); [done|].
  destruct (Hparse k0 Hin0 Hk0) as [v0 Hv0].
  destruct (Hmax v0) as (v & -> & _); [by exists k0|].
  destruct (Hfrom v eq_refl) as [_ [?|Hv]]; [done|].
  pose proof Hv as (k & _ & _ & Hparsed).
  destruct (DottedParse.NewVersion_segments _ _ Hparsed)
    as [_ (major & minor & rest & Hsegs)].
  exists v, major, minor, rest. split_and!; try done.
  - intros v' Hv'. destruct (Hmax v' Hv') as (v1 & [= <-] & Hle). done.
  - unfold getLatestIOSVersion.
    change (@Version dotted_versions) with Dotted.t.
    rewrite Hloop.
    change (@Segments dotted_versions v) with (Dotted.segments v).
    by rewrite Hsegs.
Qed.

Lemma parsed_among_perm keys keys' v :
  keys ≡ₚ keys' -> parsed_among keys v -> parsed_among keys' v.
Proof.
  intros Hperm (k & Hin & Hk & Hv). exists k. split_and!; try done.
  by rewrite <- Hperm.
Qed.

End LatestOrder.

(** X2.  Go visits the keys of a map in an unspecified order.  When the
    suffix of every iOS key parses as a dotted version, the result of
    [getLatestIOSVersion] is the same for every order of visit. *)
Theorem latest_independent_of_order (keys keys' : list string) :
  keys ≡ₚ keys' ->
  (forall k, k ∈ keys -> has_ios_prefix k = true ->
             exists v, Dotted.NewVersion (version_suffix k) = Ok v) ->
  getLatestIOSVersion keys = getLatestIOSVersion keys'.
Proof.
  intros Hperm Hparse.
  assert (forall k, k ∈ keys' -> has_ios_prefix k = true ->
             exists v, Dotted.NewVersion (version_suffix k) = Ok v) as Hparse'.
  { intros k Hk. apply Hparse. by rewrite Hperm. }
  destruct (decide (Exists (fun k => has_ios_prefix k = true) keys)) as [Hex|Hno].
  - apply Exists_exists in Hex as (k0 & Hin0 & Hk0).
    destruct (latest_result keys) as (v & x & y & a & Hv & Hmax & Hsegs & ->);
      [by exists k0 | done |].
    destruct (latest_result keys') as (v' & x' & y' & b & Hv' & Hmax' & Hsegs' & ->);
      [exists k0; by rewrite <- Hperm | done |].
    assert (Dotted.Compare v v' <> Gt) as H1
      by (apply Hmax'; by apply (parsed_among_perm keys keys')).
    assert (Dotted.Compare v' v <> Gt) as H2
      by (apply Hmax; by apply (parsed_among_perm keys' keys)).
    unfold Dotted.Compare in H1, H2. rewrite Hsegs, Hsegs' in H1, H2.
    by destruct (mutual_below_heads _ _ _ _ _ _ H1 H2) as [-> ->].
  - apply not_Exists_Forall in Hno; [|intros k; apply _].
    assert (Forall (fun k => has_ios_prefix k = false) keys) as Hall.
    { eapply Forall_impl; [exact Hno|]. intros k Hk. cbn in Hk.
      by destruct (has_ios_prefix k). }
    rewrite (no_ios_key_no_latest_aux (lib := dotted_versions) keys Hall).
    rewrite Hperm in Hall.
    by rewrite (no_ios_key_no_latest_aux (lib := dotted_versions) keys' Hall).
Qed.

Lemma latest_independent_of_order_witness :
  getLatestIOSVersion SampleMore.order_a = getLatestIOSVersion SampleMore.order_b.
Proof.
  apply latest_independent_of_order.
  - unfold SampleMore.order_a, SampleMore.order_b.
    apply (Permutation_rev ["iOS 9.3"; "iOS 12.1.2"; "tvOS 12.0"; "iOS 12.1"]).
  - intros k Hk Hp. unfold SampleMore.order_a in Hk.
    repeat (apply elem_of_cons in Hk as [->|Hk]);
      [eexists; vm_compute; reflexivity
      | eexists; vm_compute; reflexivity
      | vm_compute in Hp; discriminate
      | eexists; vm_compute; reflexivity
      | by apply not_elem_of_nil in Hk].
Defined.

Example latest_of_both_orders :
  getLatestIOSVersion SampleMore.order_a = ("iOS 12.1", None) /\
  getLatestIOSVersion SampleMore.order_b = ("iOS 12.1", None).
Proof. vm_compute. done. Qed.

(** X3.  Whenever [getSimulatorInfo] returns without error, the simulator
    directory answered without error, the bucket key was resolved, the
    map has a bucket under that key, and the info returned is an entry of
    that bucket whose name is exactly the configured device name. *)
Theorem simulator_found_is_exact {lib : VersionLib}
    (simulators : result OsVersionSimulatorInfosMap) (keys : list string)
    (osVersion deviceName : string) (info : InfoModel) :
  getSimulatorInfo simulators keys osVersion deviceName = (info, None) ->
  exists m key infos,
    simulators = Ok m /\ resolve_os_version keys osVersion = Ok key /\
    m !! key = Some infos /\ info ∈ infos /\ Name info = deviceName.
Proof.
  unfold getSimulatorInfo. destruct simulators as [m|e]; [|done].
  destruct (resolve_os_version keys osVersion) as [key|e]; [|done].
  destruct (m !! key) as [infos|] eqn:Hm; [|done].
  destruct (find_device infos deviceName) as [found|] eqn:Hfind; [|done].
  intros [= <-]. destruct (find_device_some _ _ _ Hfind) as [Hin Hname].
  by exists m, key, infos.
Qed.

Lemma simulator_found_is_exact_witness :
  exists m key infos,
    Ok Sample.two_buckets = Ok m /\
    resolve_os_version ["iOS 11.4"; "iOS 12.1"] "latest" = Ok key /\
    m !! key = Some infos /\ Sample.device "iPhone 8" "X" ∈ infos /\
    Name (Sample.device "iPhone 8" "X") = "iPhone 8".
Proof.
  apply (simulator_found_is_exact (lib := dotted_versions)
           (Ok Sample.two_buckets) ["iOS 11.4"; "iOS 12.1"] "latest" "iPhone 8").
  vm_compute. reflexivity.
Defined.

(** * Further properties of the result-log scan *)

Section ScanMore.

Lemma message_line_nonempty l :
  is_message_line l -> strings.TrimSpace l <> EmptyString.
Proof. unfold is_message_line. intros Hm Heq. by rewrite Heq in Hm. Qed.

Lemma scan_step_keeps_message st l :
  lastFailureMessage st <> EmptyString ->
  lastFailureMessage (scan_step st l) <> EmptyString.
Proof.
  intros Hst. unfold scan_step.
  destruct (String.eqb _ _); cbn [lastFailureMessage]; [done|].
  destruct (failureLineFound st); [|done].
  destruct (strings.HasPrefix _ _) eqn:Hm; [|done].
  by apply message_line_nonempty.
Qed.

Lemma scan_keeps_message ls st :
  lastFailureMessage st <> EmptyString ->
  lastFailureMessage (fold_left scan_step ls st) <> EmptyString.
Proof.
  revert st. induction ls as [|l ls IH]; intros st Hst; [done|].
  cbn [fold_left]. by apply IH, scan_step_keeps_message.
Qed.

Lemma scan_pair_found pre f m post st :
  is_failure_marker f -> is_message_line m ->
  lastFailureMessage (fold_left scan_step (pre ++ f :: m :: post) st) <> EmptyString.
Proof.
  intros Hf Hm. rewrite fold_left_app. cbn [fold_left].
  apply scan_keeps_message.
  unfold scan_step at 1. rewrite (message_not_failure m Hm).
  cbn [lastFailureMessage]. unfold scan_step at 1.
  unfold is_failure_marker in Hf. rewrite Hf. cbn [String.eqb Ascii.eqb].
  cbn [failureLineFound]. pose proof Hm as Hm'. unfold is_message_line in Hm'.
  rewrite Hm'. by apply message_line_nonempty.
Qed.

Lemma scan_changed ls st :
  lastFailureMessage (fold_left scan_step ls st) <> lastFailureMessage st ->
  adjacent_pair ls \/
  (failureLineFound st = true /\
   exists l ls', ls = l :: ls' /\ is_message_line l).
Proof.
  revert st. induction ls as [|l ls IH]; intros st Hne; [done|].
  cbn [fold_left] in Hne.
  destruct (decide (lastFailureMessage (fold_left scan_step ls (scan_step st l))
                    = lastFailureMessage (scan_step st l))) as [Heq|Hne'].
  - rewrite Heq in Hne. right. unfold scan_step in Hne.
    destruct (String.eqb _ _); cbn [lastFailureMessage] in Hne; [done|].
    destruct (failureLineFound st); [|done].
    destruct (strings.HasPrefix _ _) eqn:Hm; [|done].
    split; [done|]. by exists l, ls.
  - left. destruct (IH _ Hne') as [Hpair|(Hflag & m & ls' & -> & Hm)].
    + by apply adjacent_pair_cons.
    + exists [], l, m, ls'. split_and!; try done.
      unfold scan_step in Hflag. unfold is_failure_marker.
      destruct (String.eqb_spec (strings.TrimSpace l) "<failure>"); done.
Qed.

End ScanMore.

(** X4.  [parseErrorFromResultLog] returns a non-empty message exactly
    when, among the lines that the scanner delivers, some line starting
    with the message marker directly follows a failure-marker line. *)
Theorem message_iff_adjacent_pair (content : string) :
  (parseErrorFromResultLog content).1 <> EmptyString
  <-> adjacent_pair (bufio.scan content).
Proof.
  unfold parseErrorFromResultLog. cbn [fst]. split.
  - intros Hne.
    destruct (scan_changed (bufio.scan content)
                {| failureLineFound := false; lastFailureMessage := EmptyString |})
      as [Hpair|[Hflag _]]; done.
  - intros (pre & f & m & post & -> & Hf & Hm). by apply scan_pair_found.
Qed.

(** X5.  Among the lines that the scanner delivers (all lines before the
    first one of 65536 bytes or more), the last adjacent
    failure-marker/message pair decides the result: the trimmed message
    line of that pair is returned, with no error. *)
Theorem last_scanned_pair_wins (content : string) (pre post : list string)
    (f m : string) :
  bufio.scan content = pre ++ f :: m :: post ->
  is_failure_marker f -> is_message_line m -> ~ adjacent_pair post ->
  parseErrorFromResultLog content = (strings.TrimSpace m, None).
Proof.
  intros Hscan Hf Hm Hpost. unfold parseErrorFromResultLog. rewrite Hscan.
  f_equal. by apply scan_last_pair.
Qed.

Lemma last_scanned_pair_wins_witness :
  parseErrorFromResultLog SampleLog.long_line
  = (strings.TrimSpace "<message>first</message>", None).
Proof.
  apply (last_scanned_pair_wins SampleLog.long_line [] [] "<failure>").
  - vm_compute. reflexivity.
  - vm_compute. reflexivity.
  - vm_compute. reflexivity.
  - intros (pre & f & m & post & Heq & _). by destruct pre.
Defined.

(** * Configuration and report file *)

(** X6.  [validate] accepts a configuration exactly when the solution
    path is not empty and exists on disk, and the configuration name, the
    platform name and the simulator device name are not empty; the test
    filter, the OS version and the deploy directory are never looked
    at. *)
Theorem validate_accepts_iff (collab : Collaborators) (configs : ConfigsModel)
    (w : World) :
  validate collab configs w = None
  <-> XamarinSolution configs <> EmptyString
      /\ IsPathExists collab w (XamarinSolution configs) = (true, None)
      /\ XamarinConfiguration configs <> EmptyString
      /\ XamarinPlatform configs <> EmptyString
      /\ SimulatorDevice configs <> EmptyString.
Proof.
  unfold validate, is_empty.
  destruct (String.eqb_spec (XamarinSolution configs) EmptyString) as [Hs|Hs].
  { split; [done | by intros [? _]]. }
  destruct (IsPathExists collab w (XamarinSolution configs)) as [[|] [err|]].
  1,3,4: split; [done | by intros (_ & ? & _)].
  destruct (String.eqb_spec (XamarinConfiguration configs) EmptyString) as [Hc|Hc].
  { split; [done | by intros (_ & _ & ? & _)]. }
  destruct (String.eqb_spec (XamarinPlatform configs) EmptyString) as [Hp|Hp].
  { split; [done | by intros (_ & _ & _ & ? & _)]. }
  destruct (String.eqb_spec (SimulatorDevice configs) EmptyString) as [Hd|Hd].
  { split; [done | by intros (_ & _ & _ & _ & ?)]. }
  done.
Qed.

Example validate_minimal :
  validate (SampleRun.collaborators [] None EmptyString) SampleMore.minimal_configs
    SampleRun.start = None.
Proof. reflexivity. Qed.

(** X7.  [testResultLogContent] returns the content of the file, without
    error, exactly when the path is reported to exist and the file can be
    read; in every other case it returns an error together with the empty
    string, never a partial or stale content. *)
Theorem testResultLogContent_total (collab : Collaborators) (pth : string)
    (w : World) :
  ((testResultLogContent collab pth w).2 = None
   <-> IsPathExists collab w pth = (true, None)
       /\ (ReadStringFromFile collab w pth).2 = None)
  /\ ((testResultLogContent collab pth w).2 = None ->
      (testResultLogContent collab pth w).1 = (ReadStringFromFile collab w pth).1)
  /\ ((testResultLogContent collab pth w).2 <> None ->
      (testResultLogContent collab pth w).1 = EmptyString).
Proof.
  unfold testResultLogContent.
  destruct (IsPathExists collab w pth) as [[|] [err|]]; cbn [fst snd];
    try (split_and!; [split; [done | by intros [? _]] | done | done]).
  destruct (ReadStringFromFile collab w pth) as [content [err|]]; cbn [fst snd].
  - split_and!; [split; [done | by intros [_ ?]] | done | done].
  - split_and!; [done | done | done].
Qed.

(** * Further properties of the pairing loop *)

Section LoopEquations.

Context {lib : VersionLib} (collab : Collaborators).

(** An iteration in which the bundle path cannot be put in the
    environment ends the run. *)
Lemma referred_loop_setenv_fails configs (pom : ProjectOutputMap) console t tout
    p rest rl w o e :
  pom !! p = Some o ->
  find_app (Outputs o) <> EmptyString ->
  Setenv_answer collab w "APP_BUNDLE_PATH" (find_app (Outputs o)) = Some e ->
  referred_loop collab configs pom console t tout (p :: rest) rl w
  = (Exit 1,
     after_failf collab
       "Failed to set APP_BUNDLE_PATH environment, without this env test will fail, error: %s"
       [e] (record (EvSetenv "APP_BUNDLE_PATH" (find_app (Outputs o)) (Some e)) w)).
Proof.
  intros Hp Ha Hset. cbn [referred_loop]. rewrite Hp.
  assert (is_empty (find_app (Outputs o)) = false) as ->
    by (by apply String.eqb_neq).
  cbv [mbind M_bind mret M_ret Setenv]. rewrite Hset.
  by rewrite failf_eq.
Qed.

(** An iteration that reaches the test runner: the invocation it makes,
    and how the loop goes on. *)
Lemma referred_loop_cons_split configs (pom : ProjectOutputMap) console t tout
    p rest rl w o :
  pom !! p = Some o ->
  find_app (Outputs o) <> EmptyString ->
  Setenv_answer collab w "APP_BUNDLE_PATH" (find_app (Outputs o)) = None ->
  exists c env err r w4 h4,
    dllPth c = Pth (Output tout) /\
    env !! "APP_BUNDLE_PATH" = Some (find_app (Outputs o)) /\
    (forall key, key <> "APP_BUNDLE_PATH" -> env !! key = environ w !! key) /\
    environ w4 = env /\
    trace w4
    = trace w
      ++ (EvSetenv "APP_BUNDLE_PATH" (find_app (Outputs o)) None
          :: announce t p (find_app (Outputs o)) (PrintableCommand collab c) tout)
      ++ EvRun c env err :: h4 /\
    invocations h4 = [] /\
    referred_loop collab configs pom console t tout (p :: rest) rl w
    = match err with
      | Some e => test_failed collab r e w4
      | None => referred_loop collab configs pom c t tout rest r w4
      end.
Proof.
  intros Hp Ha Hset.
  rewrite (referred_loop_cons collab configs pom console t tout p rest rl w o
             Hp Ha Hset).
  set (a := find_app (Outputs o)).
  set (c := SetTestToRun (SetDLLPth console (Pth (Output tout))) (TestToRun configs)).
  set (w1 := {| environ := <["APP_BUNDLE_PATH" := a]> (environ w); trace := _ |}).
  set (err := nunit_Run collab w1 c).
  set (w2 := record (EvRun c (environ w1) err) w1).
  set (r := testResultLogContent collab (resultLogPth c) w2).
  set (w3 := record (EvReadResult (resultLogPth c) r.1 r.2) w2).
  set (w4 := match r.2 with Some e => record _ w3 | None => w3 end).
  assert (exists h4, trace w4
                     = trace w ++ (EvSetenv "APP_BUNDLE_PATH" a None
                                   :: announce t p a (PrintableCommand collab c) tout)
                       ++ EvRun c (environ w1) err :: h4
                     /\ invocations h4 = []
                     /\ environ w4 = environ w1) as (h4 & Hw4 & Hh4 & Henv).
  { subst w4 w3 w2 w1. unfold record. destruct r.2; cbn [environ trace];
      rewrite <- ?app_assoc; cbn [app]; eexists; split_and!; reflexivity. }
  exists c, (environ w1), err, r.1, w4, h4. split_and!; try done.
  - subst w1. cbn [environ]. apply lookup_insert_eq.
  - intros key Hkey. subst w1. cbn [environ]. by apply lookup_insert_ne.
Qed.

End LoopEquations.

(** X8.  Test projects that refer to no project are skipped: a loop over
    such projects only (or over none) returns normally, leaves the result
    log as it was, and adds to the trace nothing but one warning per test
    project, in order. *)
Theorem tests_without_references_are_skipped {lib : VersionLib}
    (collab : Collaborators) (configs : ConfigsModel) (pom : ProjectOutputMap)
    (console : NunitConsole) (tests : list (string * TestProjectOutputModel))
    (rl : string) (w : World) :
  Forall (fun t => ReferredProjectNames t.2 = []) tests ->
  tests_loop collab configs pom console tests rl w
  = (Ret rl, {| environ := environ w; trace := trace w ++ skip_warnings tests |}).
Proof.
  intros Hall. revert w.
  induction Hall as [|[t tout] tests Hrefs _ IH]; intros w; cbn [tests_loop].
  - unfold skip_warnings. cbn. rewrite app_nil_r. by destruct w.
  - cbn [snd] in Hrefs. rewrite Hrefs.
    cbv [mbind M_bind logf emit]. rewrite IH. cbn [environ trace].
    unfold skip_warnings. cbn [fmap list_fmap fst]. by rewrite <- app_assoc.
Qed.

Lemma tests_without_references_are_skipped_witness :
  let tests := [("UITests", SampleRun.test_project []);
                ("MoreTests", SampleRun.test_project [])] in
  tests_loop (SampleRun.collaborators [] None EmptyString) SampleRun.configs
    SampleRun.outputs SampleRun.console tests EmptyString SampleRun.start
  = (Ret EmptyString,
     {| environ := environ SampleRun.start;
        trace := trace SampleRun.start ++ skip_warnings tests |}).
Proof.
  intros tests.
  apply (tests_without_references_are_skipped (lib := dotted_versions)).
  by repeat constructor.
Defined.

Section Reports.

Lemma invocations_app h1 h2 : invocations (h1 ++ h2) = invocations h1 ++ invocations h2.
Proof. apply omap_app. Qed.

Lemma run_answers_app h1 h2 : run_answers (h1 ++ h2) = run_answers h1 ++ run_answers h2.
Proof. apply omap_app. Qed.

Lemma invoked_pairs_app h1 h2 :
  invoked_pairs (h1 ++ h2) = invoked_pairs h1 ++ invoked_pairs h2.
Proof. unfold invoked_pairs. by rewrite invocations_app, fmap_app. Qed.

Lemma no_invocation_no_answer h : invocations h = [] -> run_answers h = [].
Proof.
  induction h as [|e h IH]; [done|]. destruct e; try done. all: exact IH.
Qed.

Lemma no_invocation_no_pair h : invocations h = [] -> invoked_pairs h = [].
Proof. unfold invoked_pairs. by intros ->. Qed.

Lemma announce_invocations t p a cmd tout key err :
  invocations (EvSetenv key a err :: announce t p a cmd tout) = [].
Proof. reflexivity. Qed.

Lemma Forall_removelast_cons {A} (P : A -> Prop) x l :
  P x -> Forall P (removelast l) -> Forall P (removelast (x :: l)).
Proof.
  intros Hx Hl. destruct l as [|y l]; [constructor|].
  change (Forall P (x :: removelast (y :: l))). by constructor.
Qed.

Lemma Forall_removelast {A} (P : A -> Prop) l :
  Forall P l -> Forall P (removelast l).
Proof.
  induction 1 as [|x l Hx Hl IH]; [constructor|]. by apply Forall_removelast_cons.
Qed.

Lemma invocations_run c env err h :
  invocations (EvRun c env err :: h) = (c, env) :: invocations h.
Proof. reflexivity. Qed.

Lemma run_answers_run c env err h :
  run_answers (EvRun c env err :: h) = err :: run_answers h.
Proof. reflexivity. Qed.

(** The invocations and answers of the actions of one iteration that
    reached the test runner, followed by [h']. *)
Lemma iteration_invocations pre c env err h4 h' :
  invocations pre = [] -> invocations h4 = [] ->
  invocations ((pre ++ EvRun c env err :: h4) ++ h') = (c, env) :: invocations h'
  /\ run_answers ((pre ++ EvRun c env err :: h4) ++ h') = err :: run_answers h'.
Proof.
  intros Hpre Hh4. split.
  - by rewrite !invocations_app, invocations_run, Hpre, Hh4.
  - rewrite !run_answers_app, run_answers_run.
    by rewrite (no_invocation_no_answer _ Hpre), (no_invocation_no_answer _ Hh4).
Qed.

Lemma bundle_env_trans env0 env1 r :
  (forall key, key <> "APP_BUNDLE_PATH" -> env1 !! key = env0 !! key) ->
  bundle_env env1 r -> bundle_env env0 r.
Proof.
  intros H01 [Happ Hother]. split; [done|].
  intros key Hkey. by rewrite Hother, H01.
Qed.

End Reports.

Section LoopReports.

Context {lib : VersionLib} (collab : Collaborators).

Lemma matched_refs_cons (pom : ProjectOutputMap) tout p names :
  matched_refs pom tout (p :: names)
  = match pom !! p with
    | Some o => [(Pth (Output tout), find_app (Outputs o))]
    | None => []
    end ++ matched_refs pom tout names.
Proof. reflexivity. Qed.

(** What the loop over the referred projects of one test project has done
    when it stops. *)
Lemma referred_loop_report configs (pom : ProjectOutputMap) console t tout names rl w :
  exists h,
    trace (referred_loop collab configs pom console t tout names rl w).2
    = trace w ++ h /\
    Forall (bundle_env (environ w)) (invocations h) /\
    (forall key, key <> "APP_BUNDLE_PATH" ->
       environ (referred_loop collab configs pom console t tout names rl w).2 !! key
       = environ w !! key) /\
    loop_report (referred_loop collab configs pom console t tout names rl w).1
      (matched_refs pom tout names) h.
Proof.
  revert console rl w. induction names as [|p names IH]; intros console rl w.
  { exists []. cbn. rewrite app_nil_r. split_and!; try done; by constructor. }
  rewrite matched_refs_cons.
  destruct (pom !! p) as [o|] eqn:Hp; [|cbn [referred_loop]; rewrite Hp; apply IH].
  destruct (decide (find_app (Outputs o) = EmptyString)) as [Hblank|Ha].
  { rewrite (referred_loop_no_app collab configs pom console t tout p names rl w o
               Hp Hblank).
    destruct (after_failf_trace collab "No app generated for project: %s" [p] w)
      as (h & Htrace & Hinv & Henv).
    exists (EvLog LvError "No app generated for project: %s" [p] :: h).
    cbn [fst snd loop_report]. split_and!; try done.
    - change (Forall (bundle_env (environ w)) (invocations h)). rewrite Hinv.
      constructor.
    - intros key _. by rewrite Henv.
    - change (invoked_pairs h `prefix_of`
                expected_pairs ([(Pth (Output tout), find_app (Outputs o))]
                                ++ matched_refs pom tout names)).
      rewrite (no_invocation_no_pair _ Hinv). apply prefix_nil.
    - change (Forall (fun err => err = None) (removelast (run_answers h))).
      rewrite (no_invocation_no_answer _ Hinv). constructor. }
  destruct (Setenv_answer collab w "APP_BUNDLE_PATH" (find_app (Outputs o)))
    as [e|] eqn:Hset.
  { rewrite (referred_loop_setenv_fails collab configs pom console t tout p names
               rl w o e Hp Ha Hset).
    match goal with
    | |- context [after_failf collab ?f ?v ?w0] =>
        destruct (after_failf_trace collab f v w0) as (h & Htrace & Hinv & Henv);
        set (format := f) in *
    end.
    cbn [environ trace record] in Htrace, Henv.
    exists (EvSetenv "APP_BUNDLE_PATH" (find_app (Outputs o)) (Some e)
            :: EvLog LvError format [e] :: h).
    cbn [fst snd loop_report]. split_and!; try done.
    - rewrite Htrace. by rewrite <- app_assoc.
    - change (Forall (bundle_env (environ w)) (invocations h)). rewrite Hinv.
      constructor.
    - intros key _. by rewrite Henv.
    - change (invoked_pairs h `prefix_of`
                expected_pairs ([(Pth (Output tout), find_app (Outputs o))]
                                ++ matched_refs pom tout names)).
      rewrite (no_invocation_no_pair _ Hinv). apply prefix_nil.
    - change (Forall (fun err => err = None) (removelast (run_answers h))).
      rewrite (no_invocation_no_answer _ Hinv). constructor. }
  destruct (referred_loop_cons_split collab configs pom console t tout p names rl w o
              Hp Ha Hset)
    as (c & env & err & r & w4 & h4 & Hdll & Happ & Hother & Henv4 & Htr4 & Hinv4 & ->).
  set (pre := EvSetenv "APP_BUNDLE_PATH" (find_app (Outputs o)) None
              :: announce t p (find_app (Outputs o)) (PrintableCommand collab c) tout)
    in *.
  assert (invocations pre = []) as Hpre by reflexivity.
  assert (bundle_env (environ w) (c, env)) as Hcenv.
  { split; [by exists (find_app (Outputs o)) | done]. }
  destruct err as [e|].
  - destruct (test_failed_trace (A := string * NunitConsole) collab r e w4)
      as (h' & w' & -> & Htrace & Henv' & Hinv' & _).
    exists ((pre ++ EvRun c env (Some e) :: h4) ++ h').
    destruct (iteration_invocations pre c env (Some e) h4 h' Hpre Hinv4)
      as [Hinvs Hans].
    cbn [fst snd loop_report]. split_and!; try done.
    + rewrite Htrace, Htr4. by rewrite <- !app_assoc.
    + rewrite Hinvs, Hinv'. by constructor.
    + intros key Hkey. rewrite Henv', Henv4. by apply Hother.
    + unfold invoked_pairs. rewrite Hinvs, Hinv'. cbn [fmap list_fmap fst snd].
      rewrite Hdll, Happ. unfold expected_pairs. cbn [app fmap list_fmap fst snd].
      apply prefix_cons, prefix_nil.
    + rewrite Hans, (no_invocation_no_answer _ Hinv'). constructor.
  - destruct (IH c r w4) as (h' & Htrace & Hbundle & Henv' & Hreport).
    exists ((pre ++ EvRun c env None :: h4) ++ h').
    destruct (iteration_invocations pre c env None h4 h' Hpre Hinv4)
      as [Hinvs Hans].
    split_and!.
    + rewrite Htrace, Htr4. by rewrite <- !app_assoc.
    + rewrite Hinvs. constructor; [done|].
      eapply Forall_impl; [exact Hbundle|]. intros r'. apply bundle_env_trans.
      rewrite Henv4. exact Hother.
    + intros key Hkey. rewrite (Henv' key Hkey), Henv4. by apply Hother.
    + unfold loop_report in *.
      destruct (referred_loop collab configs pom c t tout names r w4).1
        as [res|code].
      * destruct Hreport as [Hpairs Hnone]. split.
        -- unfold invoked_pairs in *. rewrite Hinvs. cbn [fmap list_fmap fst snd].
           rewrite Hdll, Happ. unfold expected_pairs in *.
           cbn [app fmap list_fmap fst snd]. by rewrite <- Hpairs.
        -- rewrite Hans. by constructor.
      * destruct Hreport as (-> & Hprefix & Hnone). split_and!; [done | |].
        -- unfold invoked_pairs in *. rewrite Hinvs. cbn [fmap list_fmap fst snd].
           rewrite Hdll, Happ. unfold expected_pairs in *.
           cbn [app fmap list_fmap fst snd]. by apply prefix_cons.
        -- rewrite Hans. by apply Forall_removelast_cons.
Qed.

End LoopReports.

Section ReportSequence.

Lemma expected_pairs_app pairs1 pairs2 :
  expected_pairs (pairs1 ++ pairs2) = expected_pairs pairs1 ++ expected_pairs pairs2.
Proof. unfold expected_pairs. apply fmap_app. Qed.

Lemma loop_report_seq {A B} (a : A) (out2 : Outcome B) pairs1 pairs2 h1 h2 :
  loop_report (Ret a) pairs1 h1 -> loop_report out2 pairs2 h2 ->
  loop_report out2 (pairs1 ++ pairs2) (h1 ++ h2).
Proof.
  intros [Hpairs1 Hnone1] H2. unfold loop_report in *.
  rewrite invoked_pairs_app, run_answers_app, expected_pairs_app, Hpairs1.
  destruct out2 as [b|code].
  - destruct H2 as [-> Hnone2]. split; [done|]. by apply Forall_app.
  - destruct H2 as (-> & Hprefix & Hnone2). split_and!; [done | |].
    + by apply prefix_app.
    + destruct (run_answers h2) as [|x l] eqn:Hans.
      * rewrite app_nil_r. by apply Forall_removelast.
      * rewrite removelast_app by done. by apply Forall_app.
Qed.

Lemma loop_report_exit {A B} code pairs1 pairs2 h :
  loop_report (Exit code : Outcome A) pairs1 h ->
  loop_report (Exit code : Outcome B) (pairs1 ++ pairs2) h.
Proof.
  intros (-> & Hprefix & Hnone). split_and!; [done | | done].
  rewrite expected_pairs_app. by apply prefix_app_r.
Qed.

End ReportSequence.

Section OuterReport.

Context {lib : VersionLib} (collab : Collaborators).

Lemma matched_pairs_cons (pom : ProjectOutputMap) t tests :
  matched_pairs pom (t :: tests)
  = matched_refs pom t.2 (ReferredProjectNames t.2) ++ matched_pairs pom tests.
Proof. reflexivity. Qed.

(** What the loop over the test projects has done when it stops. *)
Lemma tests_loop_report configs (pom : ProjectOutputMap) console tests rl w :
  exists h,
    trace (tests_loop collab configs pom console tests rl w).2 = trace w ++ h /\
    Forall (bundle_env (environ w)) (invocations h) /\
    (forall key, key <> "APP_BUNDLE_PATH" ->
       environ (tests_loop collab configs pom console tests rl w).2 !! key
       = environ w !! key) /\
    loop_report (tests_loop collab configs pom console tests rl w).1
      (matched_pairs pom tests) h.
Proof.
  revert console rl w.
  induction tests as [|[t tout] tests IH]; intros console rl w.
  { exists []. cbn. rewrite app_nil_r. split_and!; try done; by constructor. }
  rewrite matched_pairs_cons. cbn [tests_loop snd].
  destruct (ReferredProjectNames tout) as [|name names] eqn:Hrefs.
  - cbv [mbind M_bind logf emit].
    set (warning := EvLog LvWarn _ [t]).
    destruct (IH console rl {| environ := environ w; trace := trace w ++ [warning] |})
      as (h & Htrace & Hbundle & Henv & Hreport).
    cbn [environ trace] in *.
    exists (warning :: h). split_and!; try done.
    rewrite Htrace. by rewrite <- app_assoc.
  - destruct (referred_loop_report collab configs pom console t tout (name :: names)
                rl w) as (h1 & Htrace1 & Hbundle1 & Henv1 & Hreport1).
    cbv [mbind M_bind].
    destruct (referred_loop collab configs pom console t tout (name :: names) rl w)
      as [[[rl' console']|code] w1]; cbn [fst snd] in *.
    + destruct (IH console' rl' w1) as (h2 & Htrace2 & Hbundle2 & Henv2 & Hreport2).
      exists (h1 ++ h2). split_and!.
      * rewrite Htrace2, Htrace1. by rewrite <- app_assoc.
      * rewrite invocations_app. apply Forall_app. split; [done|].
        eapply Forall_impl; [exact Hbundle2|]. intros r'.
        by apply bundle_env_trans.
      * intros key Hkey. by rewrite (Henv2 key Hkey), (Henv1 key Hkey).
      * by eapply loop_report_seq.
    + exists h1. split_and!; try done.
      by apply (loop_report_exit (A := string * NunitConsole)).
Qed.

End OuterReport.

(** * Further properties of the run as a whole *)

Section Calm.

Context (Inv : World -> Prop) (Inv_quiet : quiet_stable Inv).

Lemma calm_ret {A} (a : A) : calm Inv (mret a).
Proof. by apply hoare_ret. Qed.

Lemma calm_ask {A} (f : World -> A) : calm Inv (ask f).
Proof. by apply hoare_ask. Qed.

Lemma calm_emit e : quiet e -> calm Inv (emit e).
Proof. intros He. apply hoare_emit. intros w. by apply Inv_quiet. Qed.

Lemma calm_bind {A B} (m : M A) (f : A -> M B) :
  calm Inv m -> (forall a, calm Inv (f a)) -> calm Inv (m ≫= f).
Proof. intros Hm Hf. eapply hoare_bind; [apply Hm | apply Hf]. Qed.

Lemma calm_logf lv format args : calm Inv (logf lv format args).
Proof. by apply calm_emit. Qed.

Lemma calm_Println : calm Inv Println.
Proof. by apply calm_emit. Qed.

End Calm.

(** Walks through a computation made of binds, branches and quiet steps;
    [H] is the stability of the property kept. *)
Ltac calm_step H :=
  match goal with
  | |- calm _ (_ ≫= _) => apply calm_bind; [|intros ?]
  | |- calm _ (match ?x with _ => _ end) => destruct x
  | |- calm _ (if ?x then _ else _) => destruct x
  | |- calm _ (logf _ _ _) => apply calm_logf; exact H
  | |- calm _ Println => apply calm_Println; exact H
  | |- calm _ (emit _) => apply calm_emit; [exact H | exact I]
  | |- calm _ (ask _) => apply calm_ask
  | |- calm _ (Getenv _) => apply calm_ask
  | |- calm _ (mret _) => apply calm_ret
  end.

Section CalmProgram.

Context {lib : VersionLib} (collab : Collaborators).
Context (Inv : World -> Prop) (Inv_quiet : quiet_stable Inv).

Lemma calm_failf {A} format v : calm Inv (failf (A := A) collab format v).
Proof.
  intros w Hw. rewrite failf_eq. split; [done|]. unfold after_failf.
  destruct (envman_add collab _ RESULT_KEY "failed"); repeat apply Inv_quiet; done.
Qed.

Lemma calm_fail_on err format : calm Inv (fail_on collab err format).
Proof. unfold fail_on. destruct err; [apply calm_failf | apply calm_ret]. Qed.

Lemma calm_createConfigsModelFromEnvs : calm Inv createConfigsModelFromEnvs.
Proof. unfold createConfigsModelFromEnvs. repeat calm_step Inv_quiet. Qed.

Lemma calm_print configs : calm Inv (print configs).
Proof. unfold print. repeat calm_step Inv_quiet. Qed.

Lemma calm_log_warnings warnings : calm Inv (log_warnings warnings).
Proof.
  induction warnings; cbn [log_warnings]; [apply calm_ret|].
  apply calm_bind; [by apply calm_logf | done].
Qed.

Lemma calm_callback c : calm Inv (callback c).
Proof. unfold callback. repeat calm_step Inv_quiet. Qed.

Lemma calm_callbacks cs : calm Inv (callbacks cs).
Proof.
  induction cs; cbn [callbacks]; [apply calm_ret|].
  apply calm_bind; [apply calm_callback | done].
Qed.

Lemma calm_finish rl : calm Inv (finish collab rl).
Proof.
  unfold finish, export_full_results, exportEnvironmentWithEnvman.
  repeat calm_step Inv_quiet.
Qed.

End CalmProgram.

(** As [calm_step], through the helpers of [main] as well. *)
Ltac calm_main_step H :=
  match goal with
  | |- calm _ (fail_on _ _ _) => apply calm_fail_on; exact H
  | |- calm _ createConfigsModelFromEnvs => apply calm_createConfigsModelFromEnvs
  | |- calm _ (print _) => apply calm_print; exact H
  | |- calm _ (log_warnings _) => apply calm_log_warnings; exact H
  | |- calm _ (callbacks _) => apply calm_callbacks; exact H
  | |- calm _ (finish _ _) => apply calm_finish; exact H
  | |- _ => calm_step H
  end.

Section Phases.

Context {A B : Type}.

(** A calm step followed by the rest of the program. *)
Lemma calm_phase (Inv : World -> Prop) (m : M A) (f : A -> M B)
    (Q : B -> World -> Prop) (E : Z -> World -> Prop) :
  calm Inv m -> (forall w, Inv w -> E 1 w) -> (forall a, hoare Inv (f a) Q E) ->
  hoare Inv (m ≫= f) Q E.
Proof.
  intros Hm HE Hf w Hw. specialize (Hm w Hw). unfold mbind, M_bind.
  destruct (m w) as [[a|code] w'].
  - by apply Hf.
  - destruct Hm as [-> Hw']. by apply HE.
Qed.

End Phases.

Section Stability.

Lemma invocations_quiet h e : quiet e -> invocations (h ++ [e]) = invocations h.
Proof.
  intros He. rewrite invocations_app. destruct e; try done.
  all: apply app_nil_r.
Qed.

Lemma run_answers_quiet h e : quiet e -> run_answers (h ++ [e]) = run_answers h.
Proof.
  intros He. rewrite run_answers_app. destruct e; try done.
  all: apply app_nil_r.
Qed.

Lemma before_tests_stable : quiet_stable before_tests.
Proof.
  intros e w He Hw. unfold before_tests, record. cbn [trace].
  by rewrite invocations_quiet.
Qed.

Lemma ready_for_tests_stable : quiet_stable ready_for_tests.
Proof.
  intros e w He [Hw Henv]. unfold ready_for_tests, record. cbn [trace environ].
  by rewrite invocations_quiet.
Qed.

Lemma run_report_stable {A} pairs (out : Outcome A) :
  quiet_stable (run_report pairs out).
Proof.
  intros e w He [Hreport Henv]. unfold run_report, record, loop_report in *.
  cbn [trace]. unfold invoked_pairs in *.
  by rewrite invocations_quiet, run_answers_quiet.
Qed.

Lemma before_tests_report {A} pairs w :
  before_tests w -> run_report pairs (Exit 1 : Outcome A) w.
Proof.
  unfold before_tests, run_report, loop_report. intros Hw.
  rewrite (no_invocation_no_pair _ Hw), (no_invocation_no_answer _ Hw), Hw.
  split_and!; try done; first [apply prefix_nil | constructor].
Qed.

Lemma returned_report {A B} pairs (a : A) w :
  run_report pairs (Ret a) w -> run_report pairs (Exit 1 : Outcome B) w.
Proof.
  unfold run_report, loop_report. intros [[Hpairs Hnone] Henv].
  split_and!; try done; first [by rewrite Hpairs | by apply Forall_removelast].
Qed.

End Stability.

Section MainReport.

Context {lib : VersionLib} (collab : Collaborators).

Lemma calm_hoare {A} (Inv : World -> Prop) (m : M A) (E : Z -> World -> Prop) :
  calm Inv m -> (forall w, Inv w -> E 1 w) -> hoare Inv m (fun _ => Inv) E.
Proof.
  intros Hm HE w Hw. specialize (Hm w Hw).
  destruct (m w) as [[a|code] w']; [done|].
  destruct Hm as [-> Hw']. by apply HE.
Qed.

(** A fatal error ends the program, whatever would follow. *)
Lemma fatal_phase {B} (Inv : World -> Prop) e format (f : unit -> M B)
    (Q : B -> World -> Prop) (E : Z -> World -> Prop) :
  quiet_stable Inv -> (forall w, Inv w -> E 1 w) ->
  hoare Inv (fail_on collab (Some e) format ≫= f) Q E.
Proof.
  intros Hstable HE w Hw. unfold fail_on, mbind, M_bind. rewrite failf_eq.
  apply HE. unfold after_failf.
  destruct (envman_add collab _ RESULT_KEY "failed"); repeat apply Hstable; done.
Qed.

Lemma Setenv_udid value (E : Z -> World -> Prop) :
  hoare before_tests (Setenv collab "IOS_SIMULATOR_UDID" value)
    (fun err w => match err with
                  | None => ready_for_tests w
                  | Some _ => before_tests w
                  end) E.
Proof.
  intros w Hw. unfold Setenv.
  destruct (Setenv_answer collab w "IOS_SIMULATOR_UDID" value) as [e|].
  - unfold before_tests in *. cbn [trace]. by rewrite invocations_quiet.
  - split.
    + cbn [trace]. by rewrite invocations_quiet.
    + cbn [environ]. rewrite lookup_insert_eq. by eexists.
Qed.

Lemma ready_for_tests_report {A} pairs w :
  ready_for_tests w -> run_report pairs (Exit 1 : Outcome A) w.
Proof. intros [Hw _]. by apply before_tests_report. Qed.

Lemma hoare_tests_loop_report configs (pom : ProjectOutputMap) console tests rl :
  hoare ready_for_tests (tests_loop collab configs pom console tests rl)
    (fun _ w => run_report (matched_pairs pom tests) (Ret tt) w)
    (fun code w => run_report (matched_pairs pom tests) (Exit code : Outcome unit) w).
Proof.
  intros w [Hinv Hudid].
  destruct (tests_loop_report collab configs pom console tests rl w)
    as (h & Htrace & Hbundle & _ & Hreport).
  assert (Forall test_env (invocations h)) as Henv.
  { eapply Forall_impl; [exact Hbundle|]. intros r [Happ Hother]. split; [|done].
    by rewrite Hother. }
  destruct (tests_loop collab configs pom console tests rl w) as [[r|code] w'];
    cbn [fst snd] in *; unfold run_report, loop_report in *; rewrite Htrace;
    unfold invoked_pairs in *; rewrite invocations_app, run_answers_app, Hinv,
      (no_invocation_no_answer _ Hinv); cbn [app]; done.
Qed.

(** The report of [main]. *)
Lemma main_report :
  hoare before_tests (main collab)
    (fun _ w => run_report (pairs_of collab) (Ret tt) w)
    (fun code w => run_report (pairs_of collab) (Exit code : Outcome unit) w).
Proof.
  unfold main, pairs_of.
  repeat first
    [ apply (calm_phase before_tests);
      [ solve [repeat calm_main_step before_tests_stable]
      | apply before_tests_report | intros ? ]
    | match goal with
      | |- hoare _ (let '(_, _) := ?e in _) _ _ => destruct e
      end ].
  eapply hoare_bind; [apply Setenv_udid | intros [e|]].
  { apply fatal_phase; [apply before_tests_stable | apply before_tests_report]. }
  repeat first
    [ apply (calm_phase ready_for_tests);
      [ solve [repeat calm_main_step ready_for_tests_stable]
      | apply ready_for_tests_report | intros ? ]
    | match goal with
      | |- hoare _ (let '(_, _) := ?e in _) _ _ => destruct e
      end ].
  cbn [fst snd].
  eapply hoare_bind; [apply hoare_tests_loop_report | intros resultLog].
  apply calm_hoare; [|apply returned_report].
  apply calm_finish. apply run_report_stable.
Qed.

End MainReport.

Section RunFacts.

Context {lib : VersionLib} (collab : Collaborators) (environ0 : gmap string string).

(** The report of a finished run. *)
Lemma run_reported :
  ((run collab environ0).1 = 0 /\
   run_report (pairs_of collab) (Ret tt) (run collab environ0).2)
  \/ ((run collab environ0).1 = 1 /\
      run_report (pairs_of collab) (Exit 1 : Outcome unit) (run collab environ0).2).
Proof.
  unfold run.
  pose proof (main_report collab {| environ := environ0; trace := [] |} eq_refl) as H.
  destruct (main collab _) as [[[]|code] w]; cbn [fst snd].
  - by left.
  - right. destruct H as [(-> & Hprefix & Hnone) Henv]. by split_and!.
Qed.

Lemma invocation_recorded c env err h :
  EvRun c env err ∈ h -> (c, env) ∈ invocations h.
Proof.
  intros Hin. unfold invocations. apply list_elem_of_omap.
  by exists (EvRun c env err).
Qed.

End RunFacts.

(** X9.  Whenever the test runner is invoked in a run, the environment it
    inherits has the simulator identifier IOS_SIMULATOR_UDID set and a
    bundle path APP_BUNDLE_PATH that is not empty. *)
Theorem invocation_environment {lib : VersionLib} (collab : Collaborators)
    (environ0 env : gmap string string) (c : NunitConsole) (err : option error) :
  EvRun c env err ∈ trace (run collab environ0).2 ->
  is_Some (env !! "IOS_SIMULATOR_UDID") /\
  exists a, env !! "APP_BUNDLE_PATH" = Some a /\ a <> EmptyString.
Proof.
  intros Hin%invocation_recorded.
  assert (Forall test_env (invocations (trace (run collab environ0).2))) as Hall.
  { destruct (run_reported collab environ0) as [[_ [_ H]]|[_ [_ H]]]; exact H. }
  rewrite Forall_forall in Hall. exact (Hall _ Hin).
Qed.

Lemma invocation_environment_witness :
  exists c env err,
    EvRun c env err
    ∈ trace (run (SampleRun.collaborators ["App1"] None SampleRun.failing_report)
               SampleRun.environment).2 /\
    is_Some (env !! "IOS_SIMULATOR_UDID") /\
    exists a, env !! "APP_BUNDLE_PATH" = Some a /\ a <> EmptyString.
Proof.
  assert (exists c env err,
             trace (run (SampleRun.collaborators ["App1"] None SampleRun.failing_report)
                      SampleRun.environment).2 !! 27%nat
             = Some (EvRun c env err)) as (c & env & err & Hlookup)
    by (vm_compute; do 3 eexists; reflexivity).
  exists c, env, err.
  pose proof (list_elem_of_lookup_2 _ _ _ Hlookup) as Hin.
  split; [exact Hin|].
  exact (invocation_environment (lib := dotted_versions) _ _ _ _ _ Hin).
Defined.

(** X10.  In every run, each invocation of the test runner except
    possibly the last one answered without error: a failed invocation is
    never followed by another one.  After exit status 0 every invocation
    answered without error. *)
Theorem failed_invocation_is_last {lib : VersionLib} (collab : Collaborators)
    (environ0 : gmap string string) :
  Forall (fun err => err = None)
    (removelast (run_answers (trace (run collab environ0).2)))
  /\ ((run collab environ0).1 = 0 ->
      Forall (fun err => err = None) (run_answers (trace (run collab environ0).2))).
Proof.
  destruct (run_reported collab environ0)
    as [[Hcode [[_ Hnone] _]]|[Hcode [(_ & _ & Hnone) _]]].
  - split; [by apply Forall_removelast | done].
  - split; [done|]. rewrite Hcode. done.
Qed.

(** X11.  After exit status 0 the test runner has been invoked exactly
    once for each pair of a test project and one of its referred projects
    that the output map knows, in the order of the loops, each time with
    the assembly of the test project and, in APP_BUNDLE_PATH, the bundle
    path of the referred project.  In every run the invocations made are
    the first of these pairs. *)
Theorem invocations_follow_the_pairs {lib : VersionLib} (collab : Collaborators)
    (environ0 : gmap string string) :
  invoked_pairs (trace (run collab environ0).2)
    `prefix_of` expected_pairs (pairs_of collab)
  /\ ((run collab environ0).1 = 0 ->
      invoked_pairs (trace (run collab environ0).2)
      = expected_pairs (pairs_of collab)).
Proof.
  destruct (run_reported collab environ0)
    as [[Hcode [[Hpairs _] _]]|[Hcode [(_ & Hprefix & _) _]]].
  - split; [by rewrite Hpairs | done].
  - split; [done|]. rewrite Hcode. done.
Qed.

Example invocations_of_sample_run :
  let collab := SampleRun.collaborators ["Nope"; "App1"] None SampleRun.failing_report in
  (run collab SampleRun.environment).1 = 0 /\
  pairs_of collab = [("/build/UITests.dll", "/build/App1.app")] /\
  invoked_pairs (trace (run collab SampleRun.environment).2)
  = [("/build/UITests.dll", Some "/build/App1.app")].
Proof. vm_compute. done. Qed.

Section Prepared.

Context {lib : VersionLib} (collab : Collaborators).

Lemma createConfigsModelFromEnvs_eq w :
  createConfigsModelFromEnvs w = (Ret (configs_of (environ w)), w).
Proof. reflexivity. Qed.

Lemma validate_required configs w :
  validate collab configs w = None -> required_fields configs.
Proof.
  unfold validate, is_empty, required_fields.
  destruct (String.eqb_spec (XamarinSolution configs) EmptyString); [done|].
  destruct (IsPathExists collab w (XamarinSolution configs)) as [[|] [err|]];
    try done.
  destruct (String.eqb_spec (XamarinConfiguration configs) EmptyString); [done|].
  destruct (String.eqb_spec (XamarinPlatform configs) EmptyString); [done|].
  destruct (String.eqb_spec (SimulatorDevice configs) EmptyString); done.
Qed.

Lemma hoare_fact {A} (fact : Prop) (Inv : World -> Prop) (m : M A) Q E :
  (fact -> hoare Inv m Q E) -> hoare (fun w => fact /\ Inv w) m Q E.
Proof. intros H w [Hfact Hw]. by apply H. Qed.

Lemma hoare_always {A} (P : World -> Prop) (m : M A)
    (Q : A -> World -> Prop) (E : Z -> World -> Prop) :
  (forall a w, Q a w) -> (forall code w, E code w) -> hoare P m Q E.
Proof. intros HQ HE w _. destruct (m w) as [[a|code] w']; [apply HQ | apply HE]. Qed.

End Prepared.

(** Steps through the preparation of [main], splitting on the error of
    every [fail_on]; [Inv] is kept, [stable] is its stability. *)
Ltac prepare_steps collab Inv stable :=
  repeat first
    [ match goal with
      | |- hoare _ (fail_on collab ?e _ ≫= _) _ _ =>
          lazymatch e with
          | None => fail
          | _ =>
              destruct e as [?|];
              [ apply fatal_phase; [exact stable | intros ? ?; left; tauto] | ]
          end
      end
    | apply (calm_phase Inv);
      [ solve [repeat calm_main_step stable]
      | intros ? ?; left; tauto | intros ? ]
    | match goal with
      | |- hoare _ (let '(_, _) := ?e in _) _ _ => destruct e
      end ].

Section PreparedMain.

Context {lib : VersionLib} (collab : Collaborators) (environ0 : gmap string string).

Lemma ready_before w : ready_for_tests w -> before_tests w.
Proof. by intros [? _]. Qed.

Lemma at_validation_eq :
  (Println ;; print (configs_of environ0)) {| environ := environ0; trace := [] |}
  = (Ret tt, at_validation environ0).
Proof. reflexivity. Qed.

Lemma main_prepared :
  hoare (fun w => w = {| environ := environ0; trace := [] |}) (main collab)
    (fun _ _ => prepared collab environ0)
    (fun _ w => before_tests w \/ prepared collab environ0).
Proof.
  unfold main, prepared.
  eapply (hoare_bind _ _ _
            (fun configs w => configs = configs_of environ0
                              /\ w = {| environ := environ0; trace := [] |})).
  { by intros w ->. }
  intros configs. apply hoare_fact. intros ->.
  eapply (hoare_bind _ _ _
            (fun _ w => w = record EvPrintln {| environ := environ0; trace := [] |})).
  { by intros w ->. }
  intros _.
  eapply (hoare_bind _ _ _ (fun _ w => w = at_validation environ0)).
  { by intros w ->. }
  intros _.
  eapply (hoare_bind _ _ _
            (fun err w =>
               (err = None ->
                validate collab (configs_of environ0) (at_validation environ0)
                = None)
               /\ before_tests w)).
  { apply hoare_ask. by intros w ->. }
  intros err. apply hoare_fact. intros Hvalid.
  destruct err as [e|].
  { apply fatal_phase; [exact before_tests_stable | intros ? ?; left; tauto]. }
  specialize (Hvalid eq_refl).
  pose proof (validate_required collab _ _ Hvalid) as Hrequired.
  prepare_steps collab before_tests before_tests_stable.
  eapply hoare_bind; [apply Setenv_udid | intros [e|]].
  { apply fatal_phase; [exact before_tests_stable | intros ? ?; left; tauto]. }
  pose proof ready_before as Hready.
  repeat first
    [ match goal with
      | |- hoare _ (fail_on collab ?e _ ≫= _) _ _ =>
          lazymatch e with
          | None => fail
          | _ =>
              destruct e as [?|];
              [ apply fatal_phase;
                [exact ready_for_tests_stable | intros ? ?; left; auto] | ]
          end
      end
    | apply (calm_phase ready_for_tests);
      [ solve [repeat calm_main_step ready_for_tests_stable]
      | intros ? ?; left; auto | intros ? ]
    | match goal with
      | |- hoare _ (let '(_, _) := ?e in _) _ _ => destruct e
      end ].
  cbn [fst snd].
  apply hoare_always; [intros ? ? | intros ? ?; right]; by split_and!.
Qed.

End PreparedMain.

(** X12.  Nothing is tested unless the preparation succeeded: if the test
    runner is invoked at all in a run, then [validate] accepted the
    configuration when [main] called it (the required settings were
    present and the solution file was reported to exist, without error),
    the simulator was resolved, and the console lookup, the builder
    creation, the build, both output collections and the creation of the
    console model all answered without error. *)
Theorem nothing_tested_unless_prepared {lib : VersionLib}
    (collab : Collaborators) (environ0 : gmap string string) :
  invocations (trace (run collab environ0).2) <> [] ->
  prepared collab environ0.
Proof.
  intros Hinv. unfold run in Hinv.
  pose proof (main_prepared collab environ0 {| environ := environ0; trace := [] |})
    as H.
  destruct (main collab _) as [[[]|code] w]; cbn [snd] in Hinv.
  - by apply H.
  - by destruct (H eq_refl) as [Hnone|Hprepared].
Qed.

Lemma nothing_tested_unless_prepared_witness :
  prepared (SampleRun.collaborators ["App1"] None SampleRun.failing_report)
    SampleRun.environment.
Proof.
  apply (nothing_tested_unless_prepared (lib := dotted_versions)).
  intros H. apply (f_equal length) in H. vm_compute in H. discriminate.
Defined.

Example failed_build_tests_nothing :
  let r := run SampleMore.broken_build SampleRun.environment in
  r.1 = 1 /\ length (invocations (trace r.2)) = 0%nat /\
  SampleRun.exports (trace r.2) = [(RESULT_KEY, "failed")].
Proof. vm_compute. done. Qed.

Example missing_solution_tests_nothing :
  let r := run SampleMore.missing_solution SampleRun.environment in
  r.1 = 1 /\ length (invocations (trace r.2)) = 0%nat /\
  SampleRun.exports (trace r.2) = [(RESULT_KEY, "failed")].
Proof. vm_compute. done. Qed.

(** X13.  Referred projects that the output map does not know are
    skipped without any trace: the loop over the referred projects of a
    test project behaves as the loop over those that the map knows. *)
Theorem unknown_references_are_ignored {lib : VersionLib}
    (collab : Collaborators) (configs : ConfigsModel) (pom : ProjectOutputMap)
    (console : NunitConsole) (t : string) (tout : TestProjectOutputModel)
    (names : list string) (rl : string) (w : World) :
  referred_loop collab configs pom console t tout names rl w
  = referred_loop collab configs pom console t tout
      (filter (fun p => is_Some (pom !! p)) names) rl w.
Proof.
  revert console rl w. induction names as [|p names IH]; intros console rl w; [done|].
  destruct (pom !! p) as [o|] eqn:Hp.
  - rewrite filter_cons_True by (by rewrite Hp).
    destruct (decide (find_app (Outputs o) = EmptyString)) as [Hblank|Ha].
    { by rewrite !(referred_loop_no_app collab configs pom console t tout p _ rl w o
                     Hp Hblank). }
    destruct (Setenv_answer collab w "APP_BUNDLE_PATH" (find_app (Outputs o)))
      as [e|] eqn:Hset.
    { by rewrite !(referred_loop_setenv_fails collab configs pom console t tout p _
                     rl w o e Hp Ha Hset). }
    rewrite !(referred_loop_cons collab configs pom console t tout p _ rl w o
                Hp Ha Hset).
    destruct (nunit_Run collab _ _); [done | apply IH].
  - rewrite filter_cons_False by (rewrite Hp; by intros [? ?]).
    cbn [referred_loop]. rewrite Hp. apply IH.
Qed.

(** * The actions of a run *)

Section Within.

Context (S : Event -> Prop).

Lemma within_ret {A} (a : A) : within S (mret a).
Proof. by apply hoare_ret. Qed.

Lemma within_ask {A} (f : World -> A) : within S (ask f).
Proof. by apply hoare_ask. Qed.

Lemma within_emit e : S e -> within S (emit e).
Proof.
  intros He. apply hoare_emit. intros w Hw. unfold all_actions, record in *.
  cbn [trace]. apply Forall_app. split; [done|]. by constructor.
Qed.

Lemma within_bind {A B} (m : M A) (f : A -> M B) :
  within S m -> (forall a, within S (f a)) -> within S (m ≫= f).
Proof. intros Hm Hf. eapply hoare_bind; [apply Hm | apply Hf]. Qed.

End Within.

(** Walks through a computation made of binds, branches and single
    actions, each of which must be among the expected ones. *)
Ltac within_step :=
  match goal with
  | |- within _ (_ ≫= _) => apply within_bind; [|intros ?]
  | |- within _ (match ?x with _ => _ end) => destruct x
  | |- within _ (if ?x then _ else _) => destruct x
  | |- within _ (logf _ _ _) => apply within_emit; exact I
  | |- within _ Println => apply within_emit; exact I
  | |- within _ (emit _) => apply within_emit; cbn; solve [intuition auto]
  | |- within _ (ask _) => apply within_ask
  | |- within _ (Getenv _) => apply within_ask
  | |- within _ (mret _) => apply within_ret
  end.

Section WithinProgram.

Context {lib : VersionLib} (collab : Collaborators) (environ0 : gmap string string).

#[local] Abbreviation S := (expected_action collab environ0).

Lemma within_Setenv key value :
  key = "IOS_SIMULATOR_UDID" \/ key = "APP_BUNDLE_PATH" ->
  within S (Setenv collab key value).
Proof.
  intros Hkey w Hw. unfold Setenv, all_actions in *. cbn [trace].
  apply Forall_app. split; [done|]. by constructor.
Qed.

Lemma within_failf {A} format v : within S (failf (A := A) collab format v).
Proof.
  unfold failf, exportEnvironmentWithEnvman, os_Exit.
  repeat within_step. by intros w Hw.
Qed.

Lemma within_fail_on err format : within S (fail_on collab err format).
Proof. unfold fail_on. destruct err; [apply within_failf | apply within_ret]. Qed.

Lemma within_print configs : within S (print configs).
Proof. unfold print. repeat within_step. Qed.

Lemma within_log_warnings warnings : within S (log_warnings warnings).
Proof.
  induction warnings; cbn [log_warnings]; [apply within_ret|].
  apply within_bind; [by apply within_emit | done].
Qed.

Lemma within_callbacks cs : within S (callbacks cs).
Proof.
  induction cs; cbn [callbacks]; [apply within_ret|].
  apply within_bind; [unfold callback; repeat within_step | done].
Qed.

Lemma within_export_full_results resultLog :
  within S (export_full_results collab resultLog).
Proof.
  unfold export_full_results, is_empty, exportEnvironmentWithEnvman.
  destruct (String.eqb_spec resultLog EmptyString) as [|Hne]; cbn [negb].
  - apply within_ret.
  - repeat within_step.
Qed.

Lemma within_test_failed {A} resultLog err :
  within S (test_failed (A := A) collab resultLog err).
Proof.
  unfold test_failed.
  apply within_bind; [repeat within_step | intros _].
  apply within_bind; [apply within_export_full_results | intros _].
  apply within_failf.
Qed.

Lemma within_finish resultLog : within S (finish collab resultLog).
Proof.
  unfold finish, exportEnvironmentWithEnvman.
  apply within_bind; [repeat within_step | intros ?].
  apply within_bind; [repeat within_step | intros _].
  apply within_export_full_results.
Qed.

End WithinProgram.

(** As [within_step], through the helpers of [main] as well. *)
Ltac within_main_step :=
  match goal with
  | |- within _ (failf _ _ _) => apply within_failf
  | |- within _ (fail_on _ _ _) => apply within_fail_on
  | |- within _ (print _) => apply within_print
  | |- within _ (log_warnings _) => apply within_log_warnings
  | |- within _ (callbacks _) => apply within_callbacks
  | |- within _ (test_failed _ _ _) => apply within_test_failed
  | |- within _ (finish _ _) => apply within_finish
  | |- within _ (Setenv _ _ _) => apply within_Setenv; solve [auto]
  | |- _ => within_step
  end.

Section WithinMain.

Context {lib : VersionLib} (collab : Collaborators) (environ0 : gmap string string).

#[local] Abbreviation S := (expected_action collab environ0).

Lemma within_referred_loop (pom : ProjectOutputMap) console t tout names rl :
  console_of collab environ0 console ->
  within S (referred_loop collab (configs_of environ0) pom console t tout names rl).
Proof.
  revert console rl. induction names as [|p names IH]; intros console rl Hconsole;
    cbn [referred_loop]; [apply within_ret|].
  destruct (pom !! p); [|by apply IH].
  destruct Hconsole as [Hpth Hlog].
  repeat match goal with
    | |- within _ (referred_loop _ _ _ _ _ _ names _) =>
        apply IH; split; cbn; assumption
    | |- _ => within_main_step
    end.
Qed.

Lemma hoare_any {A} (P : World -> Prop) (m : M A) :
  hoare P m (fun _ _ => True) (fun _ _ => True).
Proof. intros w _. by destruct (m w) as [[a|code] w']. Qed.

Lemma hoare_exits {A} (P : World -> Prop) (m : M A) (Q : A -> World -> Prop) :
  (forall w, exists w', m w = (Exit 1, w')) -> hoare P m Q (fun _ _ => True).
Proof. intros Hm w _. by destruct (Hm w) as [w' ->]. Qed.

(** The console that a loop over the referred projects hands on still
    names the system console and the result log of the deploy
    directory. *)
Lemma referred_loop_console (pom : ProjectOutputMap) console t tout names rl :
  console_of collab environ0 console ->
  hoare (fun _ => True)
    (referred_loop collab (configs_of environ0) pom console t tout names rl)
    (fun out _ => console_of collab environ0 out.2) (fun _ _ => True).
Proof.
  revert console rl. induction names as [|p names IH]; intros console rl Hconsole;
    cbn [referred_loop]; [by intros w _|].
  destruct (pom !! p); [|by apply IH].
  repeat match goal with
    | |- hoare _ (referred_loop _ _ _ _ _ _ names _) _ _ =>
        apply IH; destruct Hconsole; split; cbn; assumption
    | |- hoare _ (test_failed _ ?log ?err) _ _ =>
        apply hoare_exits; intros w;
        destruct (test_failed_trace (A := string * NunitConsole) collab log err w)
          as (h & w' & Heq & _); exists w'; exact Heq
    | |- hoare _ (_ ≫= _) _ _ =>
        apply hoare_bind with (Q' := fun _ _ => True); [apply hoare_any | intros ?]
    | |- hoare _ (match ?x with _ => _ end) _ _ => destruct x
    end.
Qed.

Lemma within_tests_loop (pom : ProjectOutputMap) console tests rl :
  console_of collab environ0 console ->
  within S (tests_loop collab (configs_of environ0) pom console tests rl).
Proof.
  revert console rl.
  induction tests as [|[t tout] tests IH]; intros console rl Hconsole;
    cbn [tests_loop]; [apply within_ret|].
  assert (forall names rl0,
             within S (referred_loop collab (configs_of environ0) pom console t tout
                         names rl0
                       ≫= (fun '(resultLog, nunitConsole) =>
                             tests_loop collab (configs_of environ0) pom nunitConsole
                               tests resultLog))) as Hpair.
  { intros names rl0 w Hw.
    pose proof (within_referred_loop pom console t tout names rl0 Hconsole w Hw) as H1.
    pose proof (referred_loop_console pom console t tout names rl0 Hconsole w I) as H2.
    unfold mbind, M_bind.
    destruct (referred_loop collab (configs_of environ0) pom console t tout names
                rl0 w) as [[[rl' console']|code] w1]; [|done].
    by apply IH. }
  destruct (ReferredProjectNames tout) as [|name names].
  - apply within_bind; [by apply within_emit | intros _]. by apply IH.
  - apply Hpair.
Qed.

Lemma within_main :
  hoare (fun w => environ w = environ0 /\ all_actions S w) (main collab)
    (fun _ => all_actions S) (fun _ => all_actions S).
Proof.
  unfold main.
  apply hoare_bind with
    (Q' := fun configs w => configs = configs_of environ0 /\ all_actions S w).
  { intros w [Henv Hw]. rewrite createConfigsModelFromEnvs_eq.
    by rewrite Henv. }
  intros configs. apply hoare_fact. intros ->.
  match goal with |- hoare _ ?m _ _ => change (within S m) end.
  repeat match goal with
    | |- within _ (tests_loop _ _ _ _ _ _) =>
        apply within_tests_loop; split; cbn [nunitConsolePth resultLogPth SetResultLogPth];
        [|reflexivity]
    | |- within _ (let '(_, _) := ?x in _) => destruct x eqn:?
    | |- _ => within_main_step
    end.
  match goal with
  | H : SystemNunit3ConsolePath collab = _ |- _ => by rewrite H
  end.
Qed.

End WithinMain.

(** X14. Whatever the collaborators answer, a run started in the
    environment [environ0] does nothing but the following: it prints and
    logs; it sets no environment variable other than IOS_SIMULATOR_UDID
    and APP_BUNDLE_PATH; it builds with the configuration and the platform
    of the inputs; it invokes only the system console, with the test
    filter of the inputs and the result log TestResult.xml of the deploy
    directory; it reads no other file than that result log; and it exports
    only the result key, with the value succeeded or failed, and the full
    results key, with a value that is not empty. *)
Theorem run_does_only_expected_actions {lib : VersionLib}
    (collab : Collaborators) (environ0 : gmap string string) :
  Forall (expected_action collab environ0) (trace (run collab environ0).2).
Proof.
  unfold run.
  pose proof (within_main collab environ0 {| environ := environ0; trace := [] |})
    as Hmain.
  destruct (main collab {| environ := environ0; trace := [] |}) as [[u|code] w];
    apply Hmain; split; first [reflexivity | apply Forall_nil_2].
Qed.
